(** * uwbsnarf: the serial monitor's line splitter and record formatter

    A shallow embedding of [scripts/monitor.py]: the body of the read loop of
    [main] (lines 82-116), [parse_device_info] and [format_device_info].

    Python values are modelled as they are at run time: a [str] is a sequence
    of Unicode code points, an [int] is unbounded, a [float] is an IEEE 754
    binary64 number (the standard library's [SpecFloat]), a [dict] keeps its
    insertion order.  [print] appends to a trace.  The display
    ([sys.stdout]) is taken to encode as UTF-8 with the error handler
    ['strict'] and to accept what it is sent: [print] fails only on a text
    that holds a surrogate, with [UnicodeEncodeError].  The lines read hold
    none, since [decode('utf-8')] gives none, and the texts of the command
    line and of the exceptions' messages are taken to hold none; a text
    built from a decoded value can hold one (the escape [\ud800] decodes to
    one).  An exception that no handler of [main] catches ends the
    computation with that exception.  [main] catches
    [serial.SerialException] and [KeyboardInterrupt] around the loop and
    [UnicodeDecodeError] inside it, none of which the code below raises. *)

From Stdlib Require Import List ZArith Lia Bool String Ascii DecimalString.
From Stdlib Require Import Floats.SpecFloat.
Import ListNotations.

Local Open Scope Z_scope.

Set Warnings "-register-all".

(** ** Python strings *)

Module Str.

(** A Unicode code point. *)
Definition char := N.

(** A Python [str]. *)
Definition str := list char.

Definition of_ascii (a : ascii) : char := N_of_ascii a.

(** The [str] written by an ASCII literal. *)
Fixpoint u (s : string) : str :=
  match s with
  | EmptyString => []
  | String a r => of_ascii a :: u r
  end.

Definition len (s : str) : Z := Z.of_nat (List.length s).

Fixpoint eqb (a b : str) : bool :=
  match a, b with
  | [], [] => true
  | x :: a', y :: b' => N.eqb x y && eqb a' b'
  | _, _ => false
  end.

(** [bool(s)]: a [str] is true when it is not empty. *)
Definition truthy (s : str) : bool :=
  match s with [] => false | _ :: _ => true end.

(** [c.isspace()]: the code points CPython's [Py_UNICODE_ISSPACE] accepts. *)
Definition isspace (c : char) : bool :=
  let z := Z.of_N c in
  ((9 <=? z) && (z <=? 13)) || ((28 <=? z) && (z <=? 32))
  || (z =? 133) || (z =? 160) || (z =? 5760)
  || ((8192 <=? z) && (z <=? 8202))
  || (z =? 8232) || (z =? 8233) || (z =? 8239) || (z =? 8287)
  || (z =? 12288).

(** A surrogate code point, which UTF-8 does not encode. *)
Definition surrogate (c : char) : bool :=
  let z := Z.of_N c in (55296 <=? z) && (z <=? 57343).

Fixpoint lstrip (s : str) : str :=
  match s with
  | [] => []
  | c :: r => if isspace c then lstrip r else s
  end.

Definition rstrip (s : str) : str := rev (lstrip (rev s)).

(** [s.strip()] *)
Definition strip (s : str) : str := rstrip (lstrip s).

Fixpoint find_from (c : char) (s : str) (i : Z) : Z :=
  match s with
  | [] => -1
  | x :: r => if N.eqb x c then i else find_from c r (i + 1)
  end.

(** [s.find(c)] for a one-character [c]: the lowest index, or -1. *)
Definition find (s : str) (c : char) : Z := find_from c s 0.

Fixpoint rfind_from (c : char) (s : str) (i last : Z) : Z :=
  match s with
  | [] => last
  | x :: r => rfind_from c r (i + 1) (if N.eqb x c then i else last)
  end.

(** [s.rfind(c)] for a one-character [c]: the highest index, or -1. *)
Definition rfind (s : str) (c : char) : Z := rfind_from c s 0 (-1).

(** A slice bound as Python clips it: negative bounds count from the end. *)
Definition clip (n k : Z) : Z :=
  if k <? 0 then Z.max 0 (n + k) else Z.min k n.

(** [s[:k]] *)
Definition slice_to (s : str) (k : Z) : str :=
  firstn (Z.to_nat (clip (len s) k)) s.

(** [s[k:]] *)
Definition slice_from (s : str) (k : Z) : str :=
  skipn (Z.to_nat (clip (len s) k)) s.

(** [c * n]: [n] copies of a one-character string. *)
Definition times (c : char) (n : nat) : str := repeat c n.

Definition lbrace : char := of_ascii "{".
Definition rbrace : char := of_ascii "}".

End Str.

Import Str.
Arguments u s%_string.

(** ** Python values, exceptions and numbers *)

Module Py.

(** The values [json.loads] builds.  A [dict] is the list of its items in
    insertion order, with distinct keys; a [float] is a [spec_float] in the
    canonical form of binary64 ([valid_binary prec emax]). *)
Inductive value : Type :=
| VNone
| VBool (b : bool)
| VInt (z : Z)
| VFloat (f : spec_float)
| VStr (s : str)
| VList (l : list value)
| VDict (d : list (str * value)).

(** The exceptions the monitor can meet below [main]'s handlers. *)
Inductive exn : Set :=
| ValueError
| TypeError
| OverflowError
| ZeroDivisionError
| AttributeError
| RecursionError
| UnicodeEncodeError.

Inductive result (A : Type) : Type :=
| Ok (a : A)
| Raised (e : exn).
Arguments Ok {A} a.
Arguments Raised {A} e.

(** [d.get(k)] as an option. *)
Fixpoint lookup (d : list (str * value)) (k : str) : option value :=
  match d with
  | [] => None
  | (k', v) :: r => if Str.eqb k' k then Some v else lookup r k
  end.

(** [d[k] = v]: a present key keeps its place, a new one goes last. *)
Fixpoint store (d : list (str * value)) (k : str) (v : value)
  : list (str * value) :=
  match d with
  | [] => [(k, v)]
  | (k', v') :: r =>
      if Str.eqb k' k then (k', v) :: r else (k', v') :: store r k v
  end.

(** [bool(v)] *)
Definition truthy (v : value) : bool :=
  match v with
  | VNone => false
  | VBool b => b
  | VInt z => negb (z =? 0)
  | VFloat (S754_zero _) => false
  | VFloat _ => true
  | VStr s => Str.truthy s
  | VList l => match l with [] => false | _ => true end
  | VDict d => match d with [] => false | _ => true end
  end.

(** [v == s] for a [str] literal [s]: only an equal [str] is equal. *)
Definition eq_str (v : value) (s : str) : bool :=
  match v with
  | VStr t => Str.eqb t s
  | _ => false
  end.

(** *** Integers and floats *)

Definition prec : Z := 53.
Definition emax : Z := 1024.

(** [str(z)] for an [int]. *)
Definition str_of_int (z : Z) : str :=
  u (NilZero.string_of_int (Z.to_int z)).

(** The least magnitude that rounds to [2^1024], one step beyond the
    largest finite [float]. *)
Definition float_limit : Z := 2 ^ 1024 - 2 ^ 970.

(** [float(z)] for an [int]: the nearest binary64, ties to even;
    [OverflowError] when that is beyond the largest finite float. *)
Definition float_of_int (z : Z) : result spec_float :=
  if float_limit <=? Z.abs z then Raised OverflowError
  else Ok (binary_normalize prec emax z 0 false).

(** [a / b] on two [int]s: the exact quotient rounded once, ties to even;
    [OverflowError] when that is beyond the largest finite float. *)
Definition int_true_divide (a b : Z) : result spec_float :=
  if b =? 0 then Raised ZeroDivisionError
  else if float_limit * Z.abs b <=? Z.abs a then Raised OverflowError
  else
    let neg := xorb (a <? 0) (b <? 0) in
    if a =? 0 then Ok (S754_zero neg)
    else
      let '(q, e, l) :=
        SFdiv_core_binary prec emax (Z.abs a) 0 (Z.abs b) 0 in
      Ok (binary_round_aux prec emax neg q e l).

(** [x / y] on two [float]s. *)
Definition float_div (x y : spec_float) : result spec_float :=
  match y with
  | S754_zero _ => Raised ZeroDivisionError
  | _ => Ok (SFdiv prec emax x y)
  end.

Inductive number : Type :=
| NInt (z : Z)
| NFloat (f : spec_float).

(** The operand of an arithmetic operator: [bool] is a subclass of [int]. *)
Definition as_number (v : value) : option number :=
  match v with
  | VBool b => Some (NInt (Z.b2z b))
  | VInt z => Some (NInt z)
  | VFloat f => Some (NFloat f)
  | _ => None
  end.

Definition bind_result {A B} (r : result A) (k : A -> result B) : result B :=
  match r with
  | Ok a => k a
  | Raised e => Raised e
  end.

(** [a / b] *)
Definition truediv (a b : value) : result value :=
  match as_number a, as_number b with
  | Some (NInt x), Some (NInt y) =>
      bind_result (int_true_divide x y) (fun f => Ok (VFloat f))
  | Some (NFloat x), Some (NInt y) =>
      bind_result (float_of_int y) (fun fy =>
      bind_result (float_div x fy) (fun f => Ok (VFloat f)))
  | Some (NInt x), Some (NFloat y) =>
      bind_result (float_of_int x) (fun fx =>
      bind_result (float_div fx y) (fun f => Ok (VFloat f)))
  | Some (NFloat x), Some (NFloat y) =>
      bind_result (float_div x y) (fun f => Ok (VFloat f))
  | _, _ => Raised TypeError
  end.

(** The integer nearest to [100 * m * 2^e], ties to even. *)
Definition hundredths (m : positive) (e : Z) : Z :=
  if 0 <=? e then Zpos m * 2 ^ e * 100
  else
    let den := 2 ^ (- e) in
    let q := (Zpos m * 100) / den in
    let r := (Zpos m * 100) mod den in
    match 2 * r ?= den with
    | Lt => q
    | Eq => if Z.even q then q else q + 1
    | Gt => q + 1
    end.

Definition sign_str (s : bool) : str := if s then u "-" else [].

(** [h] hundredths written with two decimals. *)
Definition fixed2 (h : Z) : str :=
  str_of_int (h / 100) ++ u "." ++
  str_of_int ((h / 10) mod 10) ++ str_of_int (h mod 10).

(** [format(f, '.2f')] for a [float]. *)
Definition float_format_2f (f : spec_float) : str :=
  match f with
  | S754_nan => u "nan"
  | S754_infinity s => sign_str s ++ u "inf"
  | S754_zero s => sign_str s ++ u "0.00"
  | S754_finite s m e => sign_str s ++ fixed2 (hundredths m e)
  end.

(** [format(v, '.2f')]: an [int] (or [bool]) goes through [float]; [str]
    does not know the code [f]; the other types accept no format. *)
Definition format_2f (v : value) : result str :=
  match v with
  | VFloat f => Ok (float_format_2f f)
  | VInt z => bind_result (float_of_int z) (fun f => Ok (float_format_2f f))
  | VBool b =>
      bind_result (float_of_int (Z.b2z b)) (fun f => Ok (float_format_2f f))
  | VStr _ => Raised ValueError
  | VNone | VList _ | VDict _ => Raised TypeError
  end.

End Py.

Import Py.

(** ** Output and exceptions: the monitor's effects *)

Module Run.

(** What one iteration of the read loop does that can be observed: a line
    given to [print], and a call of [format_device_info]. *)
Inductive event : Type :=
| Printed (line : str)
| Formatting (info : value).

(** A computation: the events so far, and its value or the exception that
    ended it. *)
Definition M (A : Type) : Type := list event * result A.

Definition ret {A} (a : A) : M A := ([], Ok a).

Definition bind {A B} (m : M A) (k : A -> M B) : M B :=
  match m with
  | (t, Ok a) => let (t', r) := k a in (t ++ t', r)
  | (t, Raised e) => (t, Raised e)
  end.

Definition emit (ev : event) : M unit := ([ev], Ok tt).

Definition lift {A} (r : result A) : M A := ([], r).

(** The texts [sys.stdout] encodes: those without a surrogate. *)
Definition encodable (s : str) : bool :=
  forallb (fun c => negb (surrogate c)) s.

(** [print(s)]: [UnicodeEncodeError] when the display cannot encode [s]. *)
Definition print (s : str) : M unit :=
  if encodable s then emit (Printed s) else lift (Raised UnicodeEncodeError).

(** [print(s)] for a piece [s] of the line read: the line comes from
    [decode('utf-8')] and holds no surrogate, so the display encodes each
    of its pieces ([pieces_encodable] and [print_piece_encodable]
    below). *)
Definition print_piece (s : str) : M unit := emit (Printed s).

(** The lines written to the display, in order. *)
Fixpoint stdout (t : list event) : list str :=
  match t with
  | [] => []
  | Printed s :: r => s :: stdout r
  | Formatting _ :: r => stdout r
  end.

(** The arguments [format_device_info] was called with, in order. *)
Fixpoint calls (t : list event) : list value :=
  match t with
  | [] => []
  | Printed _ :: r => calls r
  | Formatting v :: r => v :: calls r
  end.

Definition trace {A} (m : M A) : list event := fst m.
Definition outcome {A} (m : M A) : result A := snd m.

End Run.

Import Run.

Notation "x <- c ;; k" := (bind c (fun x => k))
  (at level 61, c at next level, right associativity).
Notation "c ;; k" := (bind c (fun _ => k))
  (at level 61, right associativity).

(** ** The monitor *)

(** [datetime.now()], as far as ['%H:%M:%S'] shows it. *)
Record datetime : Set := { hour : nat; minute : nat; second : nat }.

(** What [json.loads] does with a [str]: a value, [json.JSONDecodeError], or
    another exception (beyond the recursion limit, or beyond the digit limit
    of [int]). *)
Inductive loads_result : Type :=
| Decoded (v : value)
| JSONDecodeError
| LoadsRaised (e : exn).

(** The result of lines 94-109 on one line: the two pieces of plain text and
    the text handed to [parse_device_info]. *)
Record SplitResult : Type :=
  { prefix : str; candidate : option str; suffix : str }.

Definition newline : char := 10%N.

Definition pad2 (n : nat) : str :=
  if (Z.of_nat n <? 10) then u "0" ++ str_of_int (Z.of_nat n)
  else str_of_int (Z.of_nat n).

(** [t.strftime('%H:%M:%S')] *)
Definition strftime_HMS (t : datetime) : str :=
  pad2 (hour t) ++ u ":" ++ pad2 (minute t) ++ u ":" ++ pad2 (second t).

Section Monitor.

(** [json.loads], the decoder of the Python library. *)
Variable json_loads : str -> loads_result.

(** [repr] of a [float], a [list] or a [dict], which is what [str] gives for
    them (shortest round-trip digits, quoting by the Unicode tables). *)
Variable repr : value -> str.

(** The clock read by [datetime.now()] during this iteration. *)
Variable now : datetime.

(** [f"{v}"], that is [str(v)]. *)
Definition to_str (v : value) : str :=
  match v with
  | VStr s => s
  | VInt z => str_of_int z
  | VBool true => u "True"
  | VBool false => u "False"
  | VNone => u "None"
  | VFloat _ | VList _ | VDict _ => repr v
  end.

(** [info.get(k, dflt)]: only a [dict] has the method. *)
Definition get (info : value) (k : str) (dflt : value) : M value :=
  match info with
  | VDict d =>
      ret match lookup d k with Some v => v | None => dflt end
  | _ => lift (Raised AttributeError)
  end.

(** Lines 14-19. *)
Definition parse_device_info (data : str) : M value :=
  match json_loads data with
  | Decoded v => ret v
  | JSONDecodeError => ret VNone
  | LoadsRaised e => lift (Raised e)
  end.

Definition rule : str := times (of_ascii "=") 60.

(** Lines 22-51. *)
Definition format_device_info (info : value) : M unit :=
  ty <- get info (u "type") VNone ;;
  if eq_str ty (u "device_found") then
    addr <- get info (u "device_addr") (VStr (u "Unknown")) ;;
    dist <- get info (u "distance_cm") (VInt 0) ;;
    rssi <- get info (u "rssi_dbm") (VInt 0) ;;
    timestamp <- get info (u "timestamp_ms") (VInt 0) ;;
    channel <- get info (u "channel") (VInt 0) ;;
    prf <- get info (u "prf") (VInt 0) ;;
    quality <- get info (u "frame_quality") (VInt 0) ;;
    print (newline :: rule) ;;
    print (u "Device Found: 0x" ++ to_str addr) ;;
    print rule ;;
    print (u "Timestamp:      " ++ to_str timestamp ++ u " ms") ;;
    cm <- lift (format_2f dist) ;;
    q <- lift (truediv dist (VInt 100)) ;;
    m <- lift (format_2f q) ;;
    print (u "Distance:       " ++ cm ++ u " cm (" ++ m ++ u " m)") ;;
    dbm <- lift (format_2f rssi) ;;
    print (u "RSSI:           " ++ dbm ++ u " dBm") ;;
    print (u "Channel:        " ++ to_str channel) ;;
    print (u "PRF:            " ++ to_str prf ++ u " MHz") ;;
    print (u "Frame Quality:  " ++ to_str quality) ;;
    print rule
  else
    ty <- get info (u "type") VNone ;;
    if eq_str ty (u "status") then
      msg <- get info (u "message") (VStr []) ;;
      print (u "[" ++ strftime_HMS now ++ u "] STATUS: " ++ to_str msg)
    else
      ty <- get info (u "type") VNone ;;
      if eq_str ty (u "error") then
        msg <- get info (u "message") (VStr []) ;;
        print (u "[" ++ strftime_HMS now ++ u "] ERROR: " ++ to_str msg)
      else ret tt.

(** Lines 111-116: decode the candidate, render it or print it as it is. *)
Definition render_candidate (stripped : str) : M unit :=
  info <- parse_device_info stripped ;;
  if truthy info then
    emit (Formatting info) ;; format_device_info info
  else print_piece stripped.

(** Lines 104-116, with [stripped] starting at the first brace. *)
Definition from_json_start (stripped : str) : M unit :=
  let json_end := rfind stripped rbrace in
  stripped <-
    (if (json_end >? -1) && (json_end + 1 <? len stripped) then
       let suffix := strip (slice_from stripped (json_end + 1)) in
       (if Str.truthy suffix then print_piece suffix else ret tt) ;;
       ret (slice_to stripped (json_end + 1))
     else ret stripped) ;;
  render_candidate stripped.

(** Lines 94-116. *)
Definition process_stripped (stripped : str) : M unit :=
  let json_start := find stripped lbrace in
  if json_start >? 0 then
    let prefix := strip (slice_to stripped json_start) in
    (if Str.truthy prefix then print_piece prefix else ret tt) ;;
    from_json_start (slice_from stripped json_start)
  else if json_start =? -1 then
    print_piece stripped
  else
    from_json_start stripped.

(** Lines 82-116: one iteration of the read loop on a decoded line (the
    copy of the line to the log file, lines 85-87, is left out). *)
Definition loop_body (decoded : str) : M unit :=
  let line := strip decoded in
  if Str.truthy line then
    let stripped := strip line in
    if negb (Str.truthy stripped) then ret tt
    else process_stripped stripped
  else ret tt.

(** The splitter on its own: what lines 94-109 compute, without the
    printing. *)
Definition split (stripped : str) : SplitResult :=
  let json_start := find stripped lbrace in
  if json_start =? -1 then
    {| prefix := []; candidate := None; suffix := [] |}
  else
    let prefix :=
      if json_start >? 0 then strip (slice_to stripped json_start)
      else [] in
    let stripped :=
      if json_start >? 0 then slice_from stripped json_start
      else stripped in
    let json_end := rfind stripped rbrace in
    if (json_end >? -1) && (json_end + 1 <? len stripped) then
      {| prefix := prefix;
         candidate := Some (slice_to stripped (json_end + 1));
         suffix := strip (slice_from stripped (json_end + 1)) |}
    else
      {| prefix := prefix; candidate := Some stripped; suffix := [] |}.

(** [print(s)] under [if s:]. *)
Definition print_if_any (s : str) : M unit :=
  if Str.truthy s then print_piece s else ret tt.

End Monitor.

(** ** A reference decoder

    [json.loads] of CPython on a [str], as its scanner reads a text: the
    grammar of JSON with the library's extensions ([NaN], [Infinity],
    [-Infinity]), strings in strict mode, numbers without a fraction or an
    exponent as [int], the others as the nearest [float], and a repeated key
    keeping its first place with its last value.  The interpreter's limits
    (recursion depth, digits of an [int]) are not part of it. *)

Module Json.

Local Open Scope N_scope.

Definition quote : char := 34.
Definition backslash : char := 92.

Definition ch_is (c : char) (a : ascii) : bool := c =? of_ascii a.

Definition is_ws (c : char) : bool :=
  (c =? 32) || (c =? 9) || (c =? 10) || (c =? 13).

Fixpoint skip_ws (s : str) : str :=
  match s with
  | c :: r => if is_ws c then skip_ws r else s
  | [] => []
  end.

Definition is_digit (c : char) : bool := (48 <=? c) && (c <=? 57).

Fixpoint span_digits (s : str) : str * str :=
  match s with
  | c :: r =>
      if is_digit c then let (ds, r') := span_digits r in (c :: ds, r')
      else ([], s)
  | [] => ([], [])
  end.

Definition int_of_digits (ds : str) : Z :=
  fold_left (fun a c => (10 * a + (Z.of_N c - 48))%Z) ds 0%Z.

Definition hex_val (c : char) : option N :=
  if is_digit c then Some (c - 48)
  else if (97 <=? c) && (c <=? 102) then Some (c - 87)
  else if (65 <=? c) && (c <=? 70) then Some (c - 55)
  else None.

Definition hex4 (s : str) : option (N * str) :=
  match s with
  | a :: b :: c :: d :: r =>
      match hex_val a, hex_val b, hex_val c, hex_val d with
      | Some a, Some b, Some c, Some d =>
          Some (((a * 16 + b) * 16 + c) * 16 + d, r)
      | _, _, _, _ => None
      end
  | _ => None
  end.

Definition simple_escape (c : char) : option char :=
  if (c =? quote) || (c =? backslash) || ch_is c "/" then Some c
  else if ch_is c "b" then Some 8
  else if ch_is c "f" then Some 12
  else if ch_is c "n" then Some 10
  else if ch_is c "r" then Some 13
  else if ch_is c "t" then Some 9
  else None.

Definition high_surrogate (c : N) : bool := (55296 <=? c) && (c <=? 56319).
Definition low_surrogate (c : N) : bool := (56320 <=? c) && (c <=? 57343).
Definition join_surrogates (hi lo : N) : N :=
  65536 + (N.lor (N.shiftl (N.land hi 1023) 10) (N.land lo 1023)).

(** The text of a string from after its opening quote, and what follows
    its closing quote. *)
Fixpoint scanstring (fuel : nat) (s acc : str) : option (str * str) :=
  match fuel, s with
  | O, _ | _, [] => None
  | S f, c :: r =>
      if c =? quote then Some (rev acc, r)
      else if c =? backslash then
        match r with
        | [] => None
        | e :: r1 =>
            if ch_is e "u" then
              match hex4 r1 with
              | None => None
              | Some (c1, r2) =>
                  match r2 with
                  | b :: x :: r3 =>
                      if high_surrogate c1 && (b =? backslash) && ch_is x "u"
                         && (4 <=? N.of_nat (List.length r3))
                      then
                        match hex4 r3 with
                        | None => None
                        | Some (c2, r4) =>
                            if low_surrogate c2
                            then scanstring f r4 (join_surrogates c1 c2 :: acc)
                            else scanstring f r2 (c1 :: acc)
                        end
                      else scanstring f r2 (c1 :: acc)
                  | _ => scanstring f r2 (c1 :: acc)
                  end
              end
            else
              match simple_escape e with
              | Some c' => scanstring f r1 (c' :: acc)
              | None => None
              end
        end
      else if c <=? 31 then None
      else scanstring f r (c :: acc)
  end.

(** [s] without the literal [p] in front of it. *)
Fixpoint after (p s : str) : option str :=
  match p, s with
  | [], _ => Some s
  | a :: p', b :: s' => if a =? b then after p' s' else None
  | _ :: _, [] => None
  end.

(** [float] of the decimal [d * 10^e], [d >= 0], with the sign [neg]. *)
Definition float_of_decimal (neg : bool) (d e : Z) : spec_float :=
  if (d =? 0)%Z then S754_zero neg
  else if (0 <=? e)%Z then
    binary_normalize prec emax (cond_Zopp neg (d * 10 ^ e)) 0 false
  else
    let '(q, e', l) := SFdiv_core_binary prec emax d 0 (10 ^ (- e)) 0 in
    binary_round_aux prec emax neg q e' l.

(** The fraction of a number: a point followed by at least one digit. *)
Definition fraction (s : str) : str * str :=
  match s with
  | p :: d :: _ =>
      if ch_is p "." && is_digit d then span_digits (tl s) else ([], s)
  | _ => ([], s)
  end.

(** The exponent of a number, if one with a digit is there. *)
Definition exponent (s : str) : option Z * str :=
  match s with
  | e :: r =>
      if ch_is e "e" || ch_is e "E" then
        let (neg, r1) :=
          match r with
          | c :: r' =>
              if ch_is c "-" then (true, r')
              else if ch_is c "+" then (false, r') else (false, r)
          | [] => (false, r)
          end in
        match span_digits r1 with
        | ([], _) => (None, s)
        | (ds, r2) => (Some (cond_Zopp neg (int_of_digits ds)), r2)
        end
      else (None, s)
  | [] => (None, s)
  end.

Definition number_tail (neg : bool) (ids r : str) : value * str :=
  let (fds, r1) := fraction r in
  let (ex, r2) := exponent r1 in
  match fds, ex with
  | [], None => (VInt (cond_Zopp neg (int_of_digits ids)), r2)
  | _, _ =>
      let e := match ex with Some e => e | None => 0%Z end in
      (VFloat (float_of_decimal neg (int_of_digits (ids ++ fds))
                 (e - Z.of_nat (List.length fds))), r2)
  end.

Definition match_number (s : str) : option (value * str) :=
  let (neg, s1) :=
    match s with
    | c :: r => if ch_is c "-" then (true, r) else (false, s)
    | [] => (false, s)
    end in
  match s1 with
  | c :: r =>
      if (49 <=? c) && (c <=? 57) then
        let (ds, r') := span_digits r in Some (number_tail neg (c :: ds) r')
      else if c =? 48 then Some (number_tail neg [c] r)
      else None
  | [] => None
  end.

Definition constant (s : str) : option (value * str) :=
  match after (u "null") s with
  | Some r => Some (VNone, r)
  | None =>
  match after (u "true") s with
  | Some r => Some (VBool true, r)
  | None =>
  match after (u "false") s with
  | Some r => Some (VBool false, r)
  | None =>
  match after (u "NaN") s with
  | Some r => Some (VFloat S754_nan, r)
  | None =>
  match after (u "Infinity") s with
  | Some r => Some (VFloat (S754_infinity false), r)
  | None =>
  match after (u "-Infinity") s with
  | Some r => Some (VFloat (S754_infinity true), r)
  | None => None
  end end end end end end.

(** One JSON value at the front of [s], and the text after it. *)
Fixpoint scan_once (fuel : nat) (s : str) : option (value * str) :=
  match fuel, s with
  | O, _ | _, [] => None
  | S f, c :: r =>
      if c =? quote then
        match scanstring (List.length r) r [] with
        | Some (t, r') => Some (VStr t, r')
        | None => None
        end
      else if ch_is c "{" then
        match skip_ws r with
        | c' :: r' =>
            if ch_is c' "}" then Some (VDict [], r')
            else
              match members f (c' :: r') [] with
              | Some (d, r'') => Some (VDict d, r'')
              | None => None
              end
        | [] => None
        end
      else if ch_is c "[" then
        match skip_ws r with
        | c' :: r' =>
            if ch_is c' "]" then Some (VList [], r')
            else
              match elements f (c' :: r') [] with
              | Some (l, r'') => Some (VList l, r'')
              | None => None
              end
        | [] => None
        end
      else
        match constant s with
        | Some vr => Some vr
        | None => match_number s
        end
  end

with members (fuel : nat) (s : str) (acc : list (str * value))
  : option (list (str * value) * str) :=
  match fuel, s with
  | O, _ | _, [] => None
  | S f, c :: r =>
      if c =? quote then
        match scanstring (List.length r) r [] with
        | None => None
        | Some (k, r1) =>
            match skip_ws r1 with
            | colon :: r2 =>
                if ch_is colon ":" then
                  match scan_once f (skip_ws r2) with
                  | None => None
                  | Some (v, r3) =>
                      let acc := store acc k v in
                      match skip_ws r3 with
                      | c' :: r4 =>
                          if ch_is c' "}" then Some (acc, r4)
                          else if ch_is c' "," then members f (skip_ws r4) acc
                          else None
                      | [] => None
                      end
                  end
                else None
            | [] => None
            end
        end
      else None
  end

with elements (fuel : nat) (s : str) (acc : list value)
  : option (list value * str) :=
  match fuel with
  | O => None
  | S f =>
      match scan_once f s with
      | None => None
      | Some (v, r1) =>
          match skip_ws r1 with
          | c' :: r2 =>
              if ch_is c' "]" then Some (rev (v :: acc), r2)
              else if ch_is c' "," then elements f (skip_ws r2) (v :: acc)
              else None
          | [] => None
          end
      end
  end.

(** [json.loads(s)] *)
Definition loads (s : str) : loads_result :=
  match s with
  | 65279 :: _ => JSONDecodeError
  | _ =>
      match scan_once (S (List.length s)) (skip_ws s) with
      | Some (v, r) =>
          match skip_ws r with
          | [] => Decoded v
          | _ :: _ => JSONDecodeError
          end
      | None => JSONDecodeError
      end
  end.

(** *** The limit on the digits of an integer

    Since CPython 3.11 [int] refuses a decimal text of more than 4300
    digits with [ValueError], and the scanner of [json] builds the [int] of
    a number without fraction or exponent as soon as it has read it.
    [loads_limited] is [loads] with that limit; [scan_once_limited],
    [members_limited] and [elements_limited] are [scan_once], [members] and
    [elements] with it. *)

(** [sys.int_info.default_max_str_digits] *)
Definition max_str_digits : nat := 4300.

(** What the scanner makes of a text: a value and the text after it, no
    value ([JSONDecodeError]), or another exception. *)
Inductive scanned (A : Type) : Type :=
| Scanned (a : A) (rest : str)
| Malformed
| Refused (e : exn).
Arguments Scanned {A} a rest.
Arguments Malformed {A}.
Arguments Refused {A} e.

(** The digits of the number at the front of [s], before any fraction or
    exponent. *)
Definition int_digits (s : str) : nat :=
  let s1 :=
    match s with
    | c :: r => if ch_is c "-" then r else s
    | [] => s
    end in
  match s1 with
  | c :: _ => if c =? 48 then 1%nat else List.length (fst (span_digits s1))
  | [] => 0%nat
  end.

Definition match_number_limited (s : str) : scanned value :=
  match match_number s with
  | None => Malformed
  | Some (VInt z, r) =>
      if (max_str_digits <? int_digits s)%nat then Refused ValueError
      else Scanned (VInt z) r
  | Some (v, r) => Scanned v r
  end.

Fixpoint scan_once_limited (fuel : nat) (s : str) : scanned value :=
  match fuel, s with
  | O, _ | _, [] => Malformed
  | S f, c :: r =>
      if c =? quote then
        match scanstring (List.length r) r [] with
        | Some (t, r') => Scanned (VStr t) r'
        | None => Malformed
        end
      else if ch_is c "{" then
        match skip_ws r with
        | c' :: r' =>
            if ch_is c' "}" then Scanned (VDict []) r'
            else
              match members_limited f (c' :: r') [] with
              | Scanned d r'' => Scanned (VDict d) r''
              | Malformed => Malformed
              | Refused e => Refused e
              end
        | [] => Malformed
        end
      else if ch_is c "[" then
        match skip_ws r with
        | c' :: r' =>
            if ch_is c' "]" then Scanned (VList []) r'
            else
              match elements_limited f (c' :: r') [] with
              | Scanned l r'' => Scanned (VList l) r''
              | Malformed => Malformed
              | Refused e => Refused e
              end
        | [] => Malformed
        end
      else
        match constant s with
        | Some (v, r') => Scanned v r'
        | None => match_number_limited s
        end
  end

with members_limited (fuel : nat) (s : str) (acc : list (str * value))
  : scanned (list (str * value)) :=
  match fuel, s with
  | O, _ | _, [] => Malformed
  | S f, c :: r =>
      if c =? quote then
        match scanstring (List.length r) r [] with
        | None => Malformed
        | Some (k, r1) =>
            match skip_ws r1 with
            | colon :: r2 =>
                if ch_is colon ":" then
                  match scan_once_limited f (skip_ws r2) with
                  | Malformed => Malformed
                  | Refused e => Refused e
                  | Scanned v r3 =>
                      let acc := store acc k v in
                      match skip_ws r3 with
                      | c' :: r4 =>
                          if ch_is c' "}" then Scanned acc r4
                          else if ch_is c' ","
                               then members_limited f (skip_ws r4) acc
                               else Malformed
                      | [] => Malformed
                      end
                  end
                else Malformed
            | [] => Malformed
            end
        end
      else Malformed
  end

with elements_limited (fuel : nat) (s : str) (acc : list value)
  : scanned (list value) :=
  match fuel with
  | O => Malformed
  | S f =>
      match scan_once_limited f s with
      | Malformed => Malformed
      | Refused e => Refused e
      | Scanned v r1 =>
          match skip_ws r1 with
          | c' :: r2 =>
              if ch_is c' "]" then Scanned (rev (v :: acc)) r2
              else if ch_is c' ","
                   then elements_limited f (skip_ws r2) (v :: acc)
                   else Malformed
          | [] => Malformed
          end
      end
  end.

(** [json.loads(s)], with the limit. *)
Definition loads_limited (s : str) : loads_result :=
  match s with
  | 65279 :: _ => JSONDecodeError
  | _ =>
      match scan_once_limited (S (List.length s)) (skip_ws s) with
      | Scanned v r =>
          match skip_ws r with
          | [] => Decoded v
          | _ :: _ => JSONDecodeError
          end
      | Malformed => JSONDecodeError
      | Refused e => LoadsRaised e
      end
  end.

End Json.

(** ** The read loop and [main]

    Lines 53-133.  The command line is taken as parsed ([argparse] is not
    modelled).  What the serial port and the file system do is given from
    outside: whether [open] and [serial.Serial] succeed, and what each
    [readline] returns or raises.  [KeyboardInterrupt] is taken at a
    [readline], where the monitor waits; writing to the log file, flushing
    and closing are taken to succeed. *)

(** [args], as [parse_args] returns it. *)
Record arguments : Type :=
  { port : str; baudrate : Z; output : option str }.

(** One call of [ser.readline()] during an iteration of the loop. *)
Inductive reading : Type :=
| Text (decoded : str) (now : datetime)
    (* bytes that decode as UTF-8; the clock during this iteration *)
| Invalid_utf8
    (* bytes on which [decode] raises [UnicodeDecodeError] *)
| Read_fails (msg : str)
    (* [serial.SerialException], [msg] being [str(e)] *)
| Interrupt.
    (* [KeyboardInterrupt] *)

(** What [serial.Serial(port, baudrate, timeout=1)] does. *)
Inductive opening : Type :=
| Opens
| Open_fails (msg : str)      (* [serial.SerialException] *)
| Open_raises (e : exn).      (* anything else, a [ValueError] for example *)

(** The surroundings of one run. *)
Record world : Type :=
  { log_opens : bool;          (* does [open(args.output, 'w')] succeed *)
    port_opening : opening;
    reads : list reading }.

(** What a run does that can be observed. *)
Inductive effect : Type :=
| Console (ev : event)         (* a [print], or a call of the formatter *)
| Log_opened (path : str)
| Logged (text : str)          (* [write] and [flush] on the log file *)
| Log_closed
| Port_opened
| Port_closed.

(** How the loop [while True] is left, if it is. *)
Inductive stop : Type :=
| Still_reading                (* every reading so far is processed *)
| Serial_stop (msg : str)
| Interrupt_stop
| Uncaught_stop (e : exn).

(** How [main] ends, if it does. *)
Inductive ending : Type :=
| Reading                      (* still in the loop *)
| Returned                     (* [main] returns: exit status 0 *)
| Exit (code : Z)              (* [sys.exit(code)] *)
| Uncaught (e : exn)           (* a traceback *)
| Log_open_failed.             (* [open] raised, before the [try] *)

Section Main.

Variable json_loads : str -> loads_result.
Variable repr : value -> str.

(** Lines 90-116: what follows the copy to the log file. *)
Definition after_log (now : datetime) (line : str) : M unit :=
  let stripped := strip line in
  if negb (Str.truthy stripped) then ret tt
  else process_stripped json_loads repr now stripped.

(** Lines 85-87. *)
Definition log_line (logging : bool) (line : str) : list effect :=
  if logging then [Logged (line ++ [newline])] else [].

(** Lines 80-120: the loop on the readings that arrive. *)
Fixpoint read_loop (logging : bool) (rs : list reading)
  : list effect * stop :=
  match rs with
  | [] => ([], Still_reading)
  | Text decoded now :: rest =>
      let line := strip decoded in
      if Str.truthy line then
        match after_log now line with
        | (t, Ok _) =>
            let (t', s) := read_loop logging rest in
            (log_line logging line ++ map Console t ++ t', s)
        | (t, Raised e) =>
            (log_line logging line ++ map Console t, Uncaught_stop e)
        end
      else read_loop logging rest
  | Invalid_utf8 :: rest => read_loop logging rest
  | Read_fails msg :: _ => ([], Serial_stop msg)
  | Interrupt :: _ => ([], Interrupt_stop)
  end.

(** Lines 129-133. *)
Definition finally (logging ser : bool) : list effect :=
  (if logging then [Log_closed] else []) ++
  (if ser then [Port_closed] else []).

Definition say (s : str) : effect := Console (Printed s).

(** [if args.output:] *)
Definition wants_log (a : arguments) : bool :=
  match output a with
  | Some path => Str.truthy path
  | None => false
  end.

Definition log_path (a : arguments) : str :=
  match output a with
  | Some path => path
  | None => []
  end.

(** Lines 64-68. *)
Definition start_log (a : arguments) : list effect :=
  if wants_log a
  then [Log_opened (log_path a); say (u "Logging to: " ++ log_path a)]
  else [].

(** Line 74. *)
Definition connecting (a : arguments) : list effect :=
  [say (u "Connecting to " ++ port a ++ u " at "
          ++ str_of_int (baudrate a) ++ u " baud...")].

(** Lines 75-77, when the port opens. *)
Definition connected : list effect :=
  [Port_opened; say (u "Connected!");
   say (u "Waiting for device data..." ++ [newline])].

(** Lines 53-133. *)
Definition main (a : arguments) (w : world) : list effect * ending :=
  if wants_log a && negb (log_opens w) then ([], Log_open_failed)
  else
    let logging := wants_log a in
    match port_opening w with
    | Open_fails msg =>
        (start_log a ++ connecting a ++ [say (u "Serial error: " ++ msg)]
           ++ finally logging false, Exit 1)
    | Open_raises e =>
        (start_log a ++ connecting a ++ finally logging false, Uncaught e)
    | Opens =>
        let (t, s) := read_loop logging (reads w) in
        let before := start_log a ++ connecting a ++ connected ++ t in
        match s with
        | Still_reading => (before, Reading)
        | Serial_stop msg =>
            (before ++ [say (u "Serial error: " ++ msg)]
               ++ finally logging true, Exit 1)
        | Interrupt_stop =>
            (before ++ [say (newline :: u "Exiting...")]
               ++ finally logging true, Returned)
        | Uncaught_stop e => (before ++ finally logging true, Uncaught e)
        end
    end.

End Main.

(** ** Notions used in the statements *)

(** Whitespace only. *)
Definition all_space (w : str) : Prop := forallb isspace w = true.

(** [x] is a run of consecutive characters of [line]. *)
Definition contiguous_span (x line : str) : Prop :=
  exists l r, line = l ++ x ++ r.

(** [r] is what remains of [s] after some characters at its front. *)
Definition suffix_of (r s : str) : Prop := exists p, s = p ++ r.

(** The text of one JSON object, with nothing before or after it, as the
    reference decoder reads it. *)
Definition object_text (obj : str) : Prop :=
  exists d, Json.scan_once (S (List.length obj)) obj = Some (VDict d, []).

(** A text written with apostrophes where it has double quotes. *)
Definition jtext (s : string) : str :=
  map (fun c => if N.eqb c 39 then Json.quote else c) (u s).
Arguments jtext s%_string.

(** [d.get(k, dflt)] on the items of a [dict]. *)
Definition field (d : list (str * value)) (k : str) (dflt : value) : value :=
  match lookup d k with
  | Some v => v
  | None => dflt
  end.

(** The values [format(v, '.2f')] accepts: a [float], and an [int] or a
    [bool] within the range of [float]. *)
Definition fits_float (v : value) : bool :=
  match v with
  | VFloat _ | VBool _ => true
  | VInt z => Z.abs z <? float_limit
  | _ => false
  end.

(** The text [str(v)] of a field holds no surrogate: [print] can show it. *)
Definition shows (repr : value -> str) (v : value) : bool :=
  encodable (to_str repr v).

(** The fields a record of each kind is expected to have, with the value
    the spec gives to an absent one. *)
Definition defaults (kind : str) : list (str * value) :=
  if Str.eqb kind (u "device_found") then
    [ (u "device_addr", VStr (u "Unknown"));
      (u "distance_cm", VInt 0);
      (u "rssi_dbm", VInt 0);
      (u "timestamp_ms", VInt 0);
      (u "channel", VInt 0);
      (u "prf", VInt 0);
      (u "frame_quality", VInt 0) ]
  else if Str.eqb kind (u "status") || Str.eqb kind (u "error") then
    [ (u "message", VStr []) ]
  else [].

(** The ten lines of a [device_found] record (lines 33-42). *)
Definition device_block (repr : value -> str)
  (addr dist rssi timestamp channel prf quality : value) : M unit :=
  print (newline :: rule) ;;
  print (u "Device Found: 0x" ++ to_str repr addr) ;;
  print rule ;;
  print (u "Timestamp:      " ++ to_str repr timestamp ++ u " ms") ;;
  cm <- lift (format_2f dist) ;;
  q <- lift (truediv dist (VInt 100)) ;;
  m <- lift (format_2f q) ;;
  print (u "Distance:       " ++ cm ++ u " cm (" ++ m ++ u " m)") ;;
  dbm <- lift (format_2f rssi) ;;
  print (u "RSSI:           " ++ dbm ++ u " dBm") ;;
  print (u "Channel:        " ++ to_str repr channel) ;;
  print (u "PRF:            " ++ to_str repr prf ++ u " MHz") ;;
  print (u "Frame Quality:  " ++ to_str repr quality) ;;
  print rule.

(** What a [device_found] record without any of its fields renders to. *)
Definition default_block : list event :=
  [ Printed (newline :: rule);
    Printed (u "Device Found: 0xUnknown");
    Printed rule;
    Printed (u "Timestamp:      0 ms");
    Printed (u "Distance:       0.00 cm (0.00 m)");
    Printed (u "RSSI:           0.00 dBm");
    Printed (u "Channel:        0");
    Printed (u "PRF:            0 MHz");
    Printed (u "Frame Quality:  0");
    Printed rule ].

(** A stand-in for [repr] in closed examples, none of which prints a
    [float], a [list] or a [dict] through [str]. *)
Definition plain_repr (v : value) : str :=
  match v with
  | VFloat f => float_format_2f f
  | _ => u "..."
  end.

(** A reading of the clock for closed examples. *)
Definition noon : datetime := {| hour := 12; minute := 0; second := 7 |}.

(** ** Texts of the closed examples *)

(** The record of the spec's second scenario. *)
Definition device_text : str :=
  jtext "{'type':'device_found','device_addr':'1A2B3C4D','distance_cm':123.45,'rssi_dbm':-72.5,'timestamp_ms':9001,'channel':5,'prf':64,'frame_quality':87}".

(** A status record after a line of the firmware's log. *)
Definition status_text : str :=
  jtext "{'type':'status','message':'scanning'}".

(** A [device_found] record whose distance is a string. *)
Definition bad_distance_text : str :=
  jtext "{'type':'device_found','distance_cm':'far'}".

(** A status record whose message is a lone surrogate, written as the
    escape that JSON has for it. *)
Definition surrogate_text : str :=
  jtext "{'type':'status','message':'\ud800'}".

(** A [device_found] record whose address is one. *)
Definition surrogate_addr_text : str :=
  jtext "{'type':'device_found','device_addr':'\ud83d'}".

(** A record cut short in an integer of 4301 digits. *)
Definition long_number_text : str :=
  jtext "{'type':'device_found','timestamp_ms':" ++ repeat 49%N 4301.

(** A record of a kind the monitor does not know. *)
Definition other_text : str := jtext "{'type':'heartbeat','seq':4}".

(** The items of the object a text decodes to (none if it does not). *)
Definition items_of (text : str) : list (str * value) :=
  match Json.loads text with
  | Decoded (VDict d) => d
  | _ => []
  end.

(** ** Notions used for the whole program *)

(** The exception [format(v, '.2f')] raises, if it raises one. *)
Definition format_error (v : value) : option exn :=
  match v with
  | VStr _ => Some ValueError
  | VNone | VList _ | VDict _ => Some TypeError
  | VInt z => if float_limit <=? Z.abs z then Some OverflowError else None
  | VBool _ | VFloat _ => None
  end.

(** Where the block of a [device_found] record stops, if it does: the
    number of lines printed before, and the exception. *)
Definition block_failure (repr : value -> str)
  (addr dist rssi timestamp channel prf quality : value)
  : option (nat * exn) :=
  if negb (shows repr addr) then Some (1%nat, UnicodeEncodeError)
  else if negb (shows repr timestamp) then Some (3%nat, UnicodeEncodeError)
  else
    match format_error dist, format_error rssi with
    | Some e, _ => Some (4%nat, e)
    | None, Some e => Some (5%nat, e)
    | None, None =>
        if negb (shows repr channel) then Some (6%nat, UnicodeEncodeError)
        else if negb (shows repr prf) then Some (7%nat, UnicodeEncodeError)
        else if negb (shows repr quality)
             then Some (8%nat, UnicodeEncodeError)
             else None
    end.


(** Without whitespace at either end. *)
Definition trimmed (s : str) : Prop := strip s = s.

(** The prints and formatter calls among the effects of a run. *)
Definition console (t : list effect) : list event :=
  flat_map (fun e => match e with Console ev => [ev] | _ => [] end) t.

(** The content of the log file after a run. *)
Definition log_file (t : list effect) : str :=
  flat_map (fun e => match e with Logged s => s | _ => [] end) t.

Definition is_log_opened (e : effect) : bool :=
  match e with Log_opened _ => true | _ => false end.
Definition is_log_closed (e : effect) : bool :=
  match e with Log_closed => true | _ => false end.
Definition is_port_opened (e : effect) : bool :=
  match e with Port_opened => true | _ => false end.
Definition is_port_closed (e : effect) : bool :=
  match e with Port_closed => true | _ => false end.

(** How many effects of a kind a run has. *)
Definition count (p : effect -> bool) (t : list effect) : nat :=
  List.length (filter p t).

(** A decoder that gives nothing but an object, if anything, for a text
    that starts with an opening brace (as [json.loads] does). *)
Definition objects_only (json_loads : str -> loads_result) : Prop :=
  forall s v, json_loads (lbrace :: s) = Decoded v -> exists d, v = VDict d.

(** A reading that leaves no trace: undecodable bytes, or a blank line. *)
Definition silent (r : reading) : bool :=
  match r with
  | Invalid_utf8 => true
  | Text decoded _ => negb (Str.truthy (strip decoded))
  | _ => false
  end.

(** A reading that ends the loop by itself. *)
Definition stops (r : reading) : bool :=
  match r with
  | Read_fails _ | Interrupt => true
  | _ => false
  end.

(** The trimmed non-blank lines among the readings, one per line of text. *)
Fixpoint all_logged (rs : list reading) : str :=
  match rs with
  | [] => []
  | Text decoded _ :: rest =>
      (if Str.truthy (strip decoded) then strip decoded ++ [newline] else [])
      ++ all_logged rest
  | _ :: rest => all_logged rest
  end.

(** What one reading shows on the console when the loop processes it. *)
Definition shown_for (json_loads : str -> loads_result) (repr : value -> str)
  (r : reading) : list event :=
  match r with
  | Text decoded now => trace (loop_body json_loads repr now decoded)
  | _ => []
  end.

(** ** Runs of the closed examples *)

Definition sample_args : arguments :=
  {| port := u "/dev/ttyACM0"; baudrate := 115200;
     output := Some (u "run.log") |}.

(** A boot message, bytes that are not UTF-8, a blank line, a status
    record, and then the device is unplugged. *)
Definition unplugged : world :=
  {| log_opens := true; port_opening := Opens;
     reads := [ Text (u "  Booting UWB firmware v1.2 ") noon;
                Invalid_utf8;
                Text (u "   ") noon;
                Text (u "Zephyr: init " ++ status_text) noon;
                Read_fails (u "device disconnected");
                Text status_text noon ] |}.

(** A record with a bad distance between two good lines. *)
Definition crashing : world :=
  {| log_opens := true; port_opening := Opens;
     reads := [ Text (u "boot") noon;
                Text bad_distance_text noon;
                Text status_text noon ] |}.

(** The user stops the monitor after one record. *)
Definition interrupted : world :=
  {| log_opens := true; port_opening := Opens;
     reads := [ Text status_text noon; Interrupt ] |}.

(** Three lines and the port still open. *)
Definition healthy : world :=
  {| log_opens := true; port_opening := Opens;
     reads := [ Text (u "boot") noon;
                Text device_text noon;
                Invalid_utf8;
                Text status_text noon ] |}.

(** Write every string literal of the goal and the context as its code
    points. *)
Ltac literals :=
  repeat match goal with
         | |- context [u ?s] =>
             let t := eval vm_compute in (u s) in change (u s) with t in *
         | H : context [u ?s] |- _ =>
             let t := eval vm_compute in (u s) in change (u s) with t in *
         end.

(** * Properties *)

(** ** Strings: searching, slicing and trimming *)

Section StrFacts.

Implicit Types (s p r : str) (c : char).

Lemma len_nonneg s : 0 <= len s.
Proof. unfold len; lia. Qed.

Lemma len_app p r : len (p ++ r) = len p + len r.
Proof. unfold len; rewrite length_app; lia. Qed.

Lemma len_cons c s : len (c :: s) = 1 + len s.
Proof. unfold len; cbn [List.length]; lia. Qed.

Lemma eqb_eq s r : Str.eqb s r = true <-> s = r.
Proof.
  revert r; induction s as [|x s IH]; intros [|y r]; cbn; split;
    try easy.
  - intros H; apply andb_true_iff in H as [Hx Hs].
    apply N.eqb_eq in Hx; apply IH in Hs; now subst.
  - intros [= -> ->]; rewrite N.eqb_refl; cbn; now apply IH.
Qed.

Lemma eqb_refl s : Str.eqb s s = true.
Proof. now apply eqb_eq. Qed.

Lemma eqb_neq s r : Str.eqb s r = false <-> s <> r.
Proof.
  split.
  - intros H E; apply eqb_eq in E; congruence.
  - intros H; destruct (Str.eqb s r) eqn:E; [|reflexivity].
    apply eqb_eq in E; contradiction.
Qed.

Lemma find_from_notin c s i : ~ In c s -> find_from c s i = -1.
Proof.
  revert i; induction s as [|x s IH]; intros i H; cbn; [reflexivity|].
  destruct (N.eqb_spec x c) as [->|_].
  - exfalso; apply H; now left.
  - apply IH; intros Hin; apply H; now right.
Qed.

Lemma find_from_app c p r i :
  ~ In c p -> find_from c (p ++ c :: r) i = i + len p.
Proof.
  revert i; induction p as [|x p IH]; intros i H; cbn [app find_from].
  - rewrite N.eqb_refl; unfold len; cbn; lia.
  - destruct (N.eqb_spec x c) as [->|_].
    + exfalso; apply H; now left.
    + rewrite IH, len_cons; [lia|].
      intros Hin; apply H; now right.
Qed.

Lemma find_from_in c s i :
  In c s ->
  exists p r, s = p ++ c :: r /\ ~ In c p /\ find_from c s i = i + len p.
Proof.
  revert i; induction s as [|x s IH]; intros i; [intros []|].
  intros Hin; cbn [find_from].
  destruct (N.eqb_spec x c) as [->|Hne].
  - exists [], s; repeat split; [intros []|unfold len; cbn; lia].
  - destruct Hin as [->|Hin]; [contradiction|].
    destruct (IH (i + 1) Hin) as (p & r & -> & Hp & Hf).
    exists (x :: p), r; repeat split.
    + intros [->|H]; [contradiction|now apply Hp].
    + rewrite Hf, len_cons; lia.
Qed.

Lemma find_notin s c : ~ In c s -> find s c = -1.
Proof. apply find_from_notin. Qed.

Lemma find_app s r c : ~ In c s -> find (s ++ c :: r) c = len s.
Proof. intros H; unfold find; now rewrite find_from_app. Qed.

Lemma find_minus_one s c : find s c = -1 -> ~ In c s.
Proof.
  intros H Hin; destruct (find_from_in c s 0 Hin) as (p & r & _ & _ & Hf).
  unfold find in H; pose proof (len_nonneg p); lia.
Qed.

Lemma rfind_from_notin c s i last :
  ~ In c s -> rfind_from c s i last = last.
Proof.
  revert i last; induction s as [|x s IH]; intros i last H; cbn;
    [reflexivity|].
  destruct (N.eqb_spec x c) as [->|_].
  - exfalso; apply H; now left.
  - apply IH; intros Hin; apply H; now right.
Qed.

Lemma rfind_from_app c p r i last :
  ~ In c r -> rfind_from c (p ++ c :: r) i last = i + len p.
Proof.
  revert i last; induction p as [|x p IH]; intros i last H;
    cbn [app rfind_from].
  - rewrite N.eqb_refl, rfind_from_notin by assumption.
    unfold len; cbn; lia.
  - rewrite IH, len_cons by assumption; lia.
Qed.

Lemma rfind_notin s c : ~ In c s -> rfind s c = -1.
Proof. apply rfind_from_notin. Qed.

Lemma rfind_app s r c : ~ In c r -> rfind (s ++ c :: r) c = len s.
Proof. intros H; unfold rfind; now rewrite rfind_from_app. Qed.

Lemma clip_len s : clip (len s) (len s) = len s.
Proof.
  unfold clip; pose proof (len_nonneg s).
  destruct (Z.ltb_spec (len s) 0); lia.
Qed.

Lemma clip_len_app p r : clip (len (p ++ r)) (len p) = len p.
Proof.
  unfold clip; rewrite len_app.
  pose proof (len_nonneg p); pose proof (len_nonneg r).
  destruct (Z.ltb_spec (len p) 0); lia.
Qed.

Lemma slice_to_app p r : slice_to (p ++ r) (len p) = p.
Proof.
  unfold slice_to; rewrite clip_len_app; unfold len.
  rewrite Nat2Z.id, firstn_app, Nat.sub_diag, firstn_all; cbn.
  apply app_nil_r.
Qed.

Lemma slice_from_app p r : slice_from (p ++ r) (len p) = r.
Proof.
  unfold slice_from; rewrite clip_len_app; unfold len.
  rewrite Nat2Z.id, skipn_app, Nat.sub_diag, skipn_all; reflexivity.
Qed.

Lemma slice_to_from s k : slice_to s k ++ slice_from s k = s.
Proof. apply firstn_skipn. Qed.

End StrFacts.

Section StripFacts.

Implicit Types (s p r w : str) (c : char).

Lemma all_space_nil : all_space [].
Proof. reflexivity. Qed.

Lemma all_space_app w1 w2 :
  all_space w1 -> all_space w2 -> all_space (w1 ++ w2).
Proof.
  unfold all_space; intros H1 H2; rewrite forallb_app, H1, H2; reflexivity.
Qed.

Lemma all_space_rev w : all_space w -> all_space (rev w).
Proof.
  unfold all_space; rewrite !forallb_forall; intros H x Hx.
  apply H; now apply in_rev.
Qed.

Lemma lstrip_all_space w : all_space w -> lstrip w = [].
Proof.
  unfold all_space; induction w as [|x w IH]; cbn; [reflexivity|].
  intros H; apply andb_true_iff in H as [-> Hw]; now apply IH.
Qed.

Lemma lstrip_split s : exists w, all_space w /\ s = w ++ lstrip s.
Proof.
  induction s as [|x s (w & Hw & E)]; [exists []; now split|].
  cbn [lstrip]; destruct (isspace x) eqn:Hx.
  - exists (x :: w); split; [|cbn; now f_equal].
    unfold all_space in *; cbn; now rewrite Hx, Hw.
  - exists []; now split.
Qed.

Lemma lstrip_app_nonspace p c r :
  isspace c = false -> lstrip (p ++ c :: r) = lstrip p ++ c :: r.
Proof.
  intros Hc; induction p as [|x p IH]; cbn; [now rewrite Hc|].
  destruct (isspace x); [exact IH|reflexivity].
Qed.

Lemma lstrip_nonspace c r : isspace c = false -> lstrip (c :: r) = c :: r.
Proof. intros Hc; cbn; now rewrite Hc. Qed.

Lemma rstrip_app_nonspace p c r :
  isspace c = false -> rstrip (p ++ c :: r) = p ++ c :: rstrip r.
Proof.
  intros Hc; unfold rstrip.
  rewrite rev_app_distr; cbn [rev]; rewrite <- app_assoc; cbn [app].
  rewrite lstrip_app_nonspace by assumption.
  rewrite rev_app_distr; cbn [rev].
  rewrite rev_involutive, <- app_assoc; reflexivity.
Qed.

Lemma rstrip_all_space w : all_space w -> rstrip w = [].
Proof.
  intros H; unfold rstrip.
  now rewrite lstrip_all_space by now apply all_space_rev.
Qed.

Lemma rstrip_split s : exists w, all_space w /\ s = rstrip s ++ w.
Proof.
  destruct (lstrip_split (rev s)) as (w & Hw & E).
  exists (rev w); split; [now apply all_space_rev|].
  unfold rstrip; rewrite <- rev_app_distr, <- E; symmetry.
  apply rev_involutive.
Qed.

(** A string is blank, or has a first character that is not a space. *)
Lemma blank_or_not s :
  all_space s \/
  exists w c r, all_space w /\ isspace c = false /\ s = w ++ c :: r.
Proof.
  destruct (lstrip_split s) as (w & Hw & E).
  destruct (lstrip s) as [|c r] eqn:L.
  - left; rewrite E, app_nil_r; exact Hw.
  - right; exists w, c, r; repeat split; try assumption.
    clear E Hw; induction s as [|x s IH]; [discriminate|].
    cbn in L; destruct (isspace x) eqn:Hx; [now apply IH|].
    now injection L as -> _.
Qed.

Lemma lstrip_rstrip s : lstrip (rstrip s) = rstrip (lstrip s).
Proof.
  destruct (blank_or_not s) as [H|(w & c & r & Hw & Hc & ->)].
  - now rewrite (rstrip_all_space s), (lstrip_all_space s) by assumption.
  - rewrite rstrip_app_nonspace, !lstrip_app_nonspace by assumption.
    rewrite (lstrip_all_space w) by assumption; cbn [app].
    symmetry; exact (rstrip_app_nonspace [] c r Hc).
Qed.

Lemma lstrip_idem s : lstrip (lstrip s) = lstrip s.
Proof.
  destruct (blank_or_not s) as [H|(w & c & r & Hw & Hc & ->)].
  - now rewrite (lstrip_all_space s) by assumption.
  - rewrite lstrip_app_nonspace, (lstrip_all_space w) by assumption.
    now apply lstrip_nonspace.
Qed.

Lemma rstrip_idem s : rstrip (rstrip s) = rstrip s.
Proof.
  unfold rstrip; now rewrite rev_involutive, lstrip_idem.
Qed.

Lemma strip_lstrip s : strip (lstrip s) = strip s.
Proof. unfold strip; now rewrite lstrip_idem. Qed.

Lemma strip_rstrip s : strip (rstrip s) = strip s.
Proof. unfold strip; now rewrite lstrip_rstrip, rstrip_idem. Qed.

Lemma strip_idem s : strip (strip s) = strip s.
Proof. unfold strip at 2; now rewrite strip_rstrip, strip_lstrip. Qed.

Lemma strip_nil : strip [] = [].
Proof. reflexivity. Qed.

(** Trimming removes a blank on each side, and nothing else. *)
Lemma strip_split s :
  exists w0 w1, all_space w0 /\ all_space w1 /\ s = w0 ++ strip s ++ w1.
Proof.
  destruct (lstrip_split s) as (w0 & H0 & E0).
  destruct (rstrip_split (lstrip s)) as (w1 & H1 & E1).
  exists w0, w1; repeat split; try assumption.
  unfold strip; now rewrite <- E1.
Qed.

Lemma in_lstrip c s : In c (lstrip s) -> In c s.
Proof.
  destruct (lstrip_split s) as (w & _ & E); intros H.
  rewrite E; apply in_or_app; now right.
Qed.

Lemma in_rstrip c s : In c (rstrip s) -> In c s.
Proof.
  destruct (rstrip_split s) as (w & _ & E); intros H.
  rewrite E; apply in_or_app; now left.
Qed.

Lemma in_strip c s : In c (strip s) -> In c s.
Proof. intros H; now apply in_lstrip, in_rstrip. Qed.

(** Trimming a line whose middle part begins and ends with characters
    that are not spaces trims the two outer parts only. *)
Lemma strip_around p a body z r :
  isspace a = false -> isspace z = false ->
  strip (p ++ (a :: body ++ [z]) ++ r)
  = lstrip p ++ (a :: body ++ [z]) ++ rstrip r.
Proof.
  intros Ha Hz; unfold strip; cbn [app].
  rewrite lstrip_app_nonspace by assumption.
  replace (lstrip p ++ a :: (body ++ [z]) ++ r)
    with ((lstrip p ++ a :: body) ++ z :: r)
    by (rewrite <- !app_assoc; reflexivity).
  rewrite rstrip_app_nonspace by assumption.
  rewrite <- !app_assoc; reflexivity.
Qed.

End StripFacts.

(** ** The effect monad *)

Section RunFacts.

Context {A B C : Type}.

Lemma bind_ret_l (a : A) (k : A -> M B) : bind (ret a) k = k a.
Proof. unfold bind, ret; now destruct (k a). Qed.

Lemma bind_ret_r (m : M A) : bind m ret = m.
Proof.
  destruct m as [t [a|e]]; cbn; [|reflexivity].
  now rewrite app_nil_r.
Qed.

Lemma bind_assoc (m : M A) (f : A -> M B) (g : B -> M C) :
  bind (bind m f) g = bind m (fun x => bind (f x) g).
Proof.
  destruct m as [t [a|e]]; cbn; [|reflexivity].
  destruct (f a) as [t' [b|e']]; cbn; [|reflexivity].
  destruct (g b) as [t'' r]; now rewrite app_assoc.
Qed.

Lemma bind_raised (t : list event) (e : exn) (k : A -> M B) :
  bind (t, Raised e) k = (t, Raised e).
Proof. reflexivity. Qed.

Lemma bind_lift_ok (a : A) (k : A -> M B) : bind (lift (Ok a)) k = k a.
Proof. apply bind_ret_l. Qed.

Lemma bind_lift_raised (e : exn) (k : A -> M B) :
  bind (lift (Raised e)) k = ([], Raised e).
Proof. reflexivity. Qed.

End RunFacts.

Lemma bind_emit {B} (ev : event) (k : unit -> M B) :
  bind (emit ev) k = (ev :: trace (k tt), outcome (k tt)).
Proof. unfold bind, emit, trace, outcome; now destruct (k tt). Qed.

Lemma bind_print_piece {B} (s : str) (k : unit -> M B) :
  bind (print_piece s) k = (Printed s :: trace (k tt), outcome (k tt)).
Proof. apply bind_emit. Qed.

(** *** What the display encodes *)

Lemma encodable_app (a b : str) :
  encodable (a ++ b) = encodable a && encodable b.
Proof. apply forallb_app. Qed.

(** A text written with ASCII characters is encoded. *)
Lemma encodable_u (s : string) : encodable (u s) = true.
Proof.
  induction s as [|a s IH]; [reflexivity|].
  cbn [u encodable forallb]; fold (encodable (u s)); rewrite IH.
  rewrite andb_true_r; unfold surrogate, of_ascii; cbv zeta.
  pose proof (N_ascii_bounded a) as H.
  destruct (Z.leb_spec 55296 (Z.of_N (N_of_ascii a))); [lia|reflexivity].
Qed.

Lemma encodable_str_of_int (z : Z) : encodable (str_of_int z) = true.
Proof. apply encodable_u. Qed.

Lemma encodable_firstn (n : nat) (s : str) :
  encodable s = true -> encodable (firstn n s) = true.
Proof.
  intros H; rewrite <- (firstn_skipn n s), encodable_app in H.
  now apply andb_true_iff in H.
Qed.

Lemma encodable_skipn (n : nat) (s : str) :
  encodable s = true -> encodable (skipn n s) = true.
Proof.
  intros H; rewrite <- (firstn_skipn n s), encodable_app in H.
  now apply andb_true_iff in H.
Qed.

Lemma encodable_rev (s : str) : encodable (rev s) = encodable s.
Proof.
  induction s as [|c s IH]; [reflexivity|].
  cbn [rev]; rewrite encodable_app, IH; cbn [encodable forallb].
  rewrite andb_true_r; apply andb_comm.
Qed.

Lemma lstrip_encodable (s : str) :
  encodable s = true -> encodable (lstrip s) = true.
Proof.
  induction s as [|c s IH]; [reflexivity|]; intros H; cbn [lstrip].
  destruct (isspace c); [|exact H].
  apply IH; cbn [encodable forallb] in H.
  now apply andb_true_iff in H.
Qed.

(** The pieces of a line that holds no surrogate hold none. *)
Lemma strip_encodable (s : str) :
  encodable s = true -> encodable (strip s) = true.
Proof.
  intros H; unfold strip, rstrip.
  rewrite encodable_rev; apply lstrip_encodable.
  rewrite encodable_rev; now apply lstrip_encodable.
Qed.

Lemma slice_to_encodable (s : str) (k : Z) :
  encodable s = true -> encodable (slice_to s k) = true.
Proof. apply encodable_firstn. Qed.

Lemma slice_from_encodable (s : str) (k : Z) :
  encodable s = true -> encodable (slice_from s k) = true.
Proof. apply encodable_skipn. Qed.

(** On such a piece [print_piece] is [print]. *)
Lemma print_piece_encodable (s : str) :
  encodable s = true -> print_piece s = print s.
Proof. intros H; unfold print; now rewrite H. Qed.

Lemma print_ok (s : str) :
  encodable s = true -> print s = ([Printed s], Ok tt).
Proof. intros H; unfold print; now rewrite H. Qed.

Lemma print_refused (s : str) :
  encodable s = false -> print s = ([], Raised UnicodeEncodeError).
Proof. intros H; unfold print; now rewrite H. Qed.

Lemma bind_print {B} (s : str) (k : unit -> M B) :
  bind (print s) k =
  if encodable s then (Printed s :: trace (k tt), outcome (k tt))
  else ([], Raised UnicodeEncodeError).
Proof.
  unfold print; destruct (encodable s); [apply bind_emit|reflexivity].
Qed.

Lemma trace_outcome {A} (m : M A) : m = (trace m, outcome m).
Proof. now destruct m. Qed.

Lemma stdout_app (t t' : list event) : stdout (t ++ t') = stdout t ++ stdout t'.
Proof.
  induction t as [|[s|v] t IH]; cbn; [reflexivity| |assumption].
  now rewrite IH.
Qed.

Lemma calls_app (t t' : list event) : calls (t ++ t') = calls t ++ calls t'.
Proof.
  induction t as [|[s|v] t IH]; cbn; [reflexivity|assumption|].
  now rewrite IH.
Qed.

(** ** The splitter *)

Section SplitterFacts.

Variable json_loads : str -> loads_result.
Variable repr : value -> str.
Variable now : datetime.

Local Abbreviation render_candidate := (render_candidate json_loads repr now).
Local Abbreviation from_json_start := (from_json_start json_loads repr now).
Local Abbreviation process_stripped := (process_stripped json_loads repr now).
Local Abbreviation loop_body := (loop_body json_loads repr now).

(** The read loop prints what the splitter found, in this order: the
    prefix, the suffix, then whatever the candidate renders to. *)
Lemma process_stripped_split (stripped : str) :
  process_stripped stripped =
  match candidate (split stripped) with
  | None => print_piece stripped
  | Some c =>
      print_if_any (prefix (split stripped)) ;;
      print_if_any (suffix (split stripped)) ;;
      render_candidate c
  end.
Proof.
  unfold process_stripped, split, from_json_start, print_if_any.
  destruct (find stripped lbrace =? -1) eqn:E1.
  - apply Z.eqb_eq in E1; rewrite E1; reflexivity.
  - destruct (find stripped lbrace >? 0) eqn:E2.
    + match goal with
      | |- context [if ?c then {| prefix := _ |} else _] => destruct c
      end; cbn [candidate prefix suffix Str.truthy].
      * now rewrite !bind_assoc, bind_ret_l.
      * now rewrite !bind_ret_l.
    + match goal with
      | |- context [if ?c then {| prefix := _ |} else _] => destruct c
      end; cbn [candidate prefix suffix Str.truthy].
      * now rewrite !bind_assoc, !bind_ret_l.
      * now rewrite !bind_ret_l.
Qed.

Lemma loop_body_stripped (line : str) :
  strip line = line -> line <> [] ->
  loop_body line = process_stripped line.
Proof.
  intros E Hne; unfold loop_body; rewrite !E.
  destruct line; [contradiction|reflexivity].
Qed.

Lemma loop_body_strip (decoded : str) :
  loop_body decoded =
  if Str.truthy (strip decoded) then process_stripped (strip decoded)
  else ret tt.
Proof.
  unfold loop_body; rewrite strip_idem.
  now destruct (strip decoded).
Qed.

(** A line made of a prefix without an opening brace, a text in braces
    and a suffix without a closing brace splits into these three. *)
Lemma split_around (pre body suf : str) :
  ~ In lbrace pre -> ~ In rbrace suf ->
  split (pre ++ (lbrace :: body ++ [rbrace]) ++ suf)
  = {| prefix := strip pre;
       candidate := Some (lbrace :: body ++ [rbrace]);
       suffix := strip suf |}.
Proof.
  intros Hpre Hsuf.
  set (obj := lbrace :: body ++ [rbrace]).
  assert (Hfind : find (pre ++ obj ++ suf) lbrace = len pre)
    by (unfold obj; cbn [app]; now apply find_app).
  assert (Hrfind : rfind (obj ++ suf) rbrace = len obj - 1).
  { replace (obj ++ suf) with ((lbrace :: body) ++ rbrace :: suf)
      by (unfold obj; cbn [app]; now rewrite <- app_assoc).
    rewrite (rfind_app (lbrace :: body) suf rbrace Hsuf).
    unfold obj; rewrite !len_cons, len_app, len_cons.
    change (len []) with 0; lia. }
  assert (Hobj : 0 < len obj)
    by (unfold obj; rewrite len_cons; pose proof (len_nonneg (body ++ [rbrace])); lia).
  assert (Hrest :
    (if len pre >? 0 then slice_from (pre ++ obj ++ suf) (len pre)
     else pre ++ obj ++ suf) = obj ++ suf).
  { destruct (Z.gtb_spec (len pre) 0); [apply slice_from_app|].
    destruct pre as [|x pre]; [reflexivity|].
    rewrite len_cons in *; pose proof (len_nonneg pre); lia. }
  assert (Hprefix :
    (if len pre >? 0 then strip (slice_to (pre ++ obj ++ suf) (len pre))
     else []) = strip pre).
  { destruct (Z.gtb_spec (len pre) 0); [now rewrite slice_to_app|].
    destruct pre as [|x pre]; [reflexivity|].
    rewrite len_cons in *; pose proof (len_nonneg pre); lia. }
  unfold split; rewrite Hfind, Hrest, Hprefix, Hrfind.
  pose proof (len_nonneg pre).
  destruct (Z.eqb_spec (len pre) (-1)); [lia|].
  rewrite len_app.
  replace (len obj - 1 + 1) with (len obj) by lia.
  destruct (Z.gtb_spec (len obj - 1) (-1)); [|lia]; cbn [andb].
  destruct (Z.ltb_spec (len obj) (len obj + len suf)).
  - now rewrite slice_to_app, slice_from_app.
  - destruct suf as [|x suf]; [now rewrite app_nil_r|].
    rewrite len_cons in *; pose proof (len_nonneg suf); lia.
Qed.

End SplitterFacts.

(** The trimmed line and the three pieces the splitter cuts from a line
    without surrogate hold none: [print] does not fail on them. *)
Lemma pieces_encodable (line : str) :
  encodable line = true ->
  encodable (strip line) = true
  /\ encodable (prefix (split line)) = true
  /\ encodable (suffix (split line)) = true
  /\ (forall c, candidate (split line) = Some c -> encodable c = true).
Proof.
  intros H; split; [now apply strip_encodable|].
  unfold split.
  destruct (find line lbrace =? -1); [repeat split; discriminate|].
  set (rest := if find line lbrace >? 0
               then slice_from line (find line lbrace) else line).
  assert (Hrest : encodable rest = true).
  { unfold rest; destruct (find line lbrace >? 0);
      [now apply slice_from_encodable|exact H]. }
  assert (Hpre : encodable (if find line lbrace >? 0
                            then strip (slice_to line (find line lbrace))
                            else []) = true).
  { destruct (find line lbrace >? 0); [|reflexivity].
    now apply strip_encodable, slice_to_encodable. }
  destruct ((rfind rest rbrace >? -1) && (rfind rest rbrace + 1 <? len rest));
    cbn [prefix suffix candidate]; repeat split; try assumption.
  - now apply strip_encodable, slice_from_encodable.
  - intros c [= <-]; now apply slice_to_encodable.
  - intros c [= <-]; exact Hrest.
Qed.

(** ** The reference decoder reads a text from left to right *)

Section JsonFacts.

Import Json.

Implicit Types (s r : str).

Lemma suffix_refl s : suffix_of s s.
Proof. now exists []. Qed.

Lemma suffix_cons r s c : suffix_of r s -> suffix_of r (c :: s).
Proof. intros [p ->]; now exists (c :: p). Qed.

Lemma suffix_trans r s t : suffix_of r s -> suffix_of s t -> suffix_of r t.
Proof. intros [p ->] [q ->]; exists (q ++ p); now rewrite app_assoc. Qed.

Lemma suffix_app r p : suffix_of r (p ++ r).
Proof. now exists p. Qed.

Lemma skip_ws_suffix s : suffix_of (skip_ws s) s.
Proof.
  induction s as [|c s IH]; cbn; [apply suffix_refl|].
  destruct (is_ws c); [now apply suffix_cons|apply suffix_refl].
Qed.

Lemma hex4_suffix s n r : hex4 s = Some (n, r) -> suffix_of r s.
Proof.
  destruct s as [|a [|b [|c [|d s]]]]; cbn; try discriminate.
  destruct (hex_val a), (hex_val b), (hex_val c), (hex_val d);
    try discriminate.
  intros [= _ <-]; now exists [a; b; c; d].
Qed.

Create HintDb suffix.
#[local] Hint Resolve suffix_refl suffix_cons suffix_app skip_ws_suffix
  : suffix.

Lemma scanstring_suffix fuel s acc t r :
  scanstring fuel s acc = Some (t, r) -> suffix_of r s.
Proof.
  revert s acc; induction fuel as [|f IH]; intros s acc; [easy|].
  destruct s as [|c s]; [easy|]; cbn [scanstring].
  destruct (c =? quote)%N; [intros [= _ <-]; auto with suffix|].
  destruct (c =? backslash)%N.
  - destruct s as [|e r1]; [easy|].
    destruct (ch_is e "u").
    + destruct (hex4 r1) as [[c1 r2]|] eqn:H1; [|easy].
      apply hex4_suffix in H1.
      assert (G : forall a, scanstring f r2 a = Some (t, r) ->
                            suffix_of r (c :: e :: r1)).
      { intros a Ha; apply IH in Ha.
        do 2 apply suffix_cons; eapply suffix_trans; eassumption. }
      destruct r2 as [|b [|x r3]]; try apply G.
      destruct (high_surrogate c1 && (b =? backslash)%N && ch_is x "u"
                && (4 <=? N.of_nat (List.length r3))%N); [|apply G].
      destruct (hex4 r3) as [[c2 r4]|] eqn:H2; [|easy].
      apply hex4_suffix in H2.
      destruct (low_surrogate c2); [|apply G].
      intros Ha; apply IH in Ha.
      do 2 apply suffix_cons.
      eapply suffix_trans; [|exact H1].
      do 2 apply suffix_cons.
      eapply suffix_trans; eassumption.
    + destruct (simple_escape e); [|easy].
      intros Ha; apply IH in Ha; auto with suffix.
  - destruct (c <=? 31)%N; [easy|].
    intros Ha; apply IH in Ha; auto with suffix.
Qed.

Lemma after_eq p s r : after p s = Some r -> s = p ++ r.
Proof.
  revert s; induction p as [|a p IH]; intros s; cbn.
  - now intros [= ->].
  - destruct s as [|b s]; [easy|].
    destruct (N.eqb_spec a b) as [->|]; [|easy].
    intros H; apply IH in H; now subst.
Qed.

Lemma constant_suffix s v r : constant s = Some (v, r) -> suffix_of r s.
Proof.
  unfold constant; intros H.
  repeat match type of H with
         | match after ?p s with _ => _ end = _ =>
             let E := fresh "E" in
             destruct (after p s) eqn:E;
             [apply after_eq in E; injection H as _ <-; rewrite E;
              apply suffix_app|]
         end.
  discriminate.
Qed.

Lemma constant_not_dict s v r :
  constant s = Some (v, r) -> forall d, v <> VDict d.
Proof.
  unfold constant; intros H d.
  repeat match type of H with
         | match after ?p s with _ => _ end = _ =>
             destruct (after p s);
             [injection H as <- _; discriminate|]
         end.
  discriminate.
Qed.

Lemma span_digits_eq s ds r : span_digits s = (ds, r) -> s = ds ++ r.
Proof.
  revert ds; induction s as [|c s IH]; intros ds; cbn.
  - now intros [= <- <-].
  - destruct (is_digit c).
    + destruct (span_digits s) as [ds' r']; intros [= <- <-].
      cbn; f_equal; now apply IH.
    + now intros [= <- <-].
Qed.

Lemma span_digits_suffix s : suffix_of (snd (span_digits s)) s.
Proof.
  destruct (span_digits s) as [ds r] eqn:E.
  apply span_digits_eq in E; subst; apply suffix_app.
Qed.

Lemma fraction_suffix s : suffix_of (snd (fraction s)) s.
Proof.
  unfold fraction; destruct s as [|p [|d s]]; try apply suffix_refl.
  destruct (ch_is p "." && is_digit d); [|apply suffix_refl].
  cbn [tl]; apply suffix_cons, span_digits_suffix.
Qed.

Lemma exponent_suffix s : suffix_of (snd (exponent s)) s.
Proof.
  unfold exponent; destruct s as [|e r]; [apply suffix_refl|].
  destruct (ch_is e "e" || ch_is e "E"); [|apply suffix_refl].
  match goal with
  | |- context [let (_, _) := ?x in _] => destruct x as [neg r1] eqn:E
  end.
  assert (Hr1 : suffix_of r1 r).
  { destruct r as [|c r']; [injection E as _ <-; apply suffix_refl|].
    destruct (ch_is c "-"); [injection E as _ <-; auto with suffix|].
    destruct (ch_is c "+"); injection E as _ <-; auto with suffix. }
  pose proof (span_digits_suffix r1) as Hd.
  destruct (span_digits r1) as [[|d ds] r2]; [apply suffix_refl|].
  cbn [snd] in *; apply suffix_cons.
  eapply suffix_trans; eassumption.
Qed.

Lemma number_tail_suffix neg ids r :
  suffix_of (snd (number_tail neg ids r)) r.
Proof.
  unfold number_tail.
  pose proof (fraction_suffix r) as Hf.
  destruct (fraction r) as [fds r1]; cbn [snd] in Hf.
  pose proof (exponent_suffix r1) as He.
  destruct (exponent r1) as [ex r2]; cbn [snd] in He.
  assert (suffix_of r2 r) by (eapply suffix_trans; eassumption).
  destruct fds, ex; assumption.
Qed.

Lemma number_tail_not_dict neg ids r d :
  fst (number_tail neg ids r) <> VDict d.
Proof.
  unfold number_tail.
  destruct (fraction r) as [fds r1], (exponent r1) as [ex r2].
  destruct fds, ex; discriminate.
Qed.

Lemma match_number_some s v r :
  match_number s = Some (v, r) ->
  suffix_of r s /\ forall d, v <> VDict d.
Proof.
  unfold match_number.
  match goal with
  | |- context [let (_, _) := ?x in _] => destruct x as [neg s1] eqn:E
  end.
  assert (Hs1 : suffix_of s1 s).
  { destruct s as [|c r']; [injection E as _ <-; apply suffix_refl|].
    destruct (ch_is c "-"); injection E as _ <-; auto with suffix. }
  destruct s1 as [|c r1]; [easy|].
  destruct ((49 <=? c) && (c <=? 57))%N.
  - pose proof (span_digits_suffix r1) as Hd.
    destruct (span_digits r1) as [ds r']; cbn [snd] in Hd.
    intros [= E']; split.
    + pose proof (number_tail_suffix neg (c :: ds) r') as Ht.
      rewrite E' in Ht; cbn [snd] in Ht.
      eapply suffix_trans; [exact Ht|].
      eapply suffix_trans; [exact Hd|].
      eapply suffix_trans; [|exact Hs1]; auto with suffix.
    + intros d Hv.
      apply (number_tail_not_dict neg (c :: ds) r' d).
      now rewrite E'.
  - destruct (c =? 48)%N; [|easy].
    intros [= E']; split.
    + pose proof (number_tail_suffix neg [c] r1) as Ht.
      rewrite E' in Ht; cbn [snd] in Ht.
      eapply suffix_trans; [exact Ht|].
      eapply suffix_trans; [|exact Hs1]; auto with suffix.
    + intros d Hv.
      apply (number_tail_not_dict neg [c] r1 d).
      now rewrite E'.
Qed.

Lemma ch_is_eq c a : ch_is c a = true -> c = of_ascii a.
Proof. apply N.eqb_eq. Qed.

Lemma suffix_tail c r s : suffix_of (c :: r) s -> suffix_of r s.
Proof. intros [p ->]; exists (p ++ [c]); now rewrite <- app_assoc. Qed.

(** Each parser returns a rest of its input; the members of an object
    end at a closing brace. *)
Lemma scan_shape fuel :
  (forall s v r, scan_once fuel s = Some (v, r) -> suffix_of r s) /\
  (forall s acc d r,
      members fuel s acc = Some (d, r) -> suffix_of (rbrace :: r) s) /\
  (forall s acc l r, elements fuel s acc = Some (l, r) -> suffix_of r s).
Proof.
  induction fuel as [|f (IHs & IHm & IHe)]; [repeat split; easy|].
  repeat split.
  - intros [|c r0] v r; [easy|]; cbn [scan_once].
    destruct (c =? quote)%N.
    { destruct (scanstring (List.length r0) r0 []) as [[t r']|] eqn:E;
        [|easy].
      intros [= _ <-]; apply scanstring_suffix in E; auto with suffix. }
    destruct (ch_is c "{").
    { pose proof (skip_ws_suffix r0) as Hw.
      destruct (skip_ws r0) as [|c' r']; [easy|].
      destruct (ch_is c' "}").
      - intros [= _ <-]; apply suffix_cons, (suffix_tail c'), Hw.
      - destruct (members f (c' :: r') []) as [[d r'']|] eqn:E; [|easy].
        intros [= _ <-]; apply IHm, suffix_tail in E.
        apply suffix_cons; eapply suffix_trans; eassumption. }
    destruct (ch_is c "[").
    { pose proof (skip_ws_suffix r0) as Hw.
      destruct (skip_ws r0) as [|c' r']; [easy|].
      destruct (ch_is c' "]").
      - intros [= _ <-]; apply suffix_cons, (suffix_tail c'), Hw.
      - destruct (elements f (c' :: r') []) as [[l r'']|] eqn:E; [|easy].
        intros [= _ <-]; apply IHe in E.
        apply suffix_cons; eapply suffix_trans; eassumption. }
    destruct (constant (c :: r0)) as [[v' r']|] eqn:E.
    + intros [= <- <-]; eapply constant_suffix; eassumption.
    + intros H; now apply match_number_some in H.
  - intros [|c r0] acc d r; [easy|]; cbn [members].
    destruct (c =? quote)%N; [|easy].
    destruct (scanstring (List.length r0) r0 []) as [[k r1]|] eqn:E1;
      [|easy].
    apply scanstring_suffix in E1.
    pose proof (skip_ws_suffix r1) as Hw1.
    destruct (skip_ws r1) as [|colon r2]; [easy|].
    destruct (ch_is colon ":"); [|easy].
    destruct (scan_once f (skip_ws r2)) as [[v r3]|] eqn:E2; [|easy].
    apply IHs in E2.
    pose proof (skip_ws_suffix r2) as Hw2.
    pose proof (skip_ws_suffix r3) as Hw3.
    assert (H3 : suffix_of r3 (c :: r0)).
    { apply suffix_cons.
      eapply suffix_trans; [|exact E1].
      eapply suffix_trans; [|exact Hw1].
      apply suffix_cons.
      eapply suffix_trans; eassumption. }
    destruct (skip_ws r3) as [|c' r4]; [easy|].
    destruct (ch_is c' "}") eqn:Hc.
    + intros [= _ <-]; apply ch_is_eq in Hc; subst c'.
      eapply suffix_trans; eassumption.
    + destruct (ch_is c' ","); [|easy].
      intros H; apply IHm in H.
      eapply suffix_trans; [exact H|].
      eapply suffix_trans; [apply skip_ws_suffix|].
      eapply suffix_trans; [|exact H3].
      eapply suffix_tail, Hw3.
  - intros s acc l r; cbn [elements].
    destruct (scan_once f s) as [[v r1]|] eqn:E1; [|easy].
    apply IHs in E1.
    pose proof (skip_ws_suffix r1) as Hw1.
    destruct (skip_ws r1) as [|c' r2]; [easy|].
    assert (H2 : suffix_of r2 s).
    { eapply suffix_trans; [|exact E1]. eapply suffix_tail, Hw1. }
    destruct (ch_is c' "]"); [now intros [= _ <-]|].
    destruct (ch_is c' ","); [|easy].
    intros H; apply IHe in H.
    eapply suffix_trans; [exact H|].
    eapply suffix_trans; [apply skip_ws_suffix|exact H2].
Qed.

(** The text of a JSON object starts with an opening brace and ends with a
    closing one. *)
Lemma object_text_braces obj :
  object_text obj -> exists body, obj = lbrace :: body ++ [rbrace].
Proof.
  intros [d H]; destruct obj as [|c r0]; [easy|].
  cbn [scan_once] in H.
  destruct (c =? quote)%N.
  { destruct (scanstring (List.length r0) r0 []) as [[t r']|]; easy. }
  destruct (ch_is c "{") eqn:Hc.
  - apply ch_is_eq in Hc; subst c.
    pose proof (skip_ws_suffix r0) as Hw.
    destruct (skip_ws r0) as [|c' r']; [easy|].
    destruct (ch_is c' "}") eqn:Hc'.
    + injection H as _ ->; apply ch_is_eq in Hc'; subst c'.
      destruct Hw as [p ->]; now exists p.
    + destruct (members _ (c' :: r') []) as [[d' r'']|] eqn:E; [|easy].
      injection H as _ ->.
      apply (proj1 (proj2 (scan_shape _))) in E.
      destruct (suffix_trans _ _ _ E Hw) as [p ->]; now exists p.
  - destruct (ch_is c "[").
    { destruct (skip_ws r0) as [|c' r']; [easy|].
      destruct (ch_is c' "]"); [easy|].
      destruct (elements _ (c' :: r') []) as [[l r'']|]; easy. }
    destruct (constant (c :: r0)) as [[v' r']|] eqn:E.
    + injection H as -> _; now apply constant_not_dict with (d := d) in E.
    + apply match_number_some in H as [_ H]; now destruct (H d).
Qed.

End JsonFacts.

(** ** The limit on digits changes nothing else *)

Section LimitFacts.

Import Json.

Lemma match_number_limited_agree (s : str) :
  match match_number_limited s with
  | Scanned v r => match_number s = Some (v, r)
  | Malformed => match_number s = None
  | Refused _ => True
  end.
Proof.
  unfold match_number_limited.
  destruct (match_number s) as [[[] r]|]; try reflexivity.
  destruct (_ <? _)%nat; [exact I|reflexivity].
Qed.

(** Where the scanner with the limit does not refuse, it is the scanner
    without. *)
Lemma scan_limited_agree (fuel : nat) :
  (forall s,
      match scan_once_limited fuel s with
      | Scanned v r => scan_once fuel s = Some (v, r)
      | Malformed => scan_once fuel s = None
      | Refused _ => True
      end)
  /\ (forall s acc,
         match members_limited fuel s acc with
         | Scanned d r => members fuel s acc = Some (d, r)
         | Malformed => members fuel s acc = None
         | Refused _ => True
         end)
  /\ (forall s acc,
         match elements_limited fuel s acc with
         | Scanned l r => elements fuel s acc = Some (l, r)
         | Malformed => elements fuel s acc = None
         | Refused _ => True
         end).
Proof.
  induction fuel as [|f (IH1 & IH2 & IH3)].
  { repeat split; intros; cbn; try destruct s; reflexivity. }
  repeat split.
  - intros [|c r]; [reflexivity|].
    cbn [scan_once_limited scan_once].
    destruct (c =? quote)%N.
    { destruct (scanstring (List.length r) r []) as [[t r']|]; reflexivity. }
    destruct (ch_is c "{").
    { destruct (skip_ws r) as [|c' r']; [reflexivity|].
      destruct (ch_is c' "}"); [reflexivity|].
      specialize (IH2 (c' :: r') []).
      destruct (members_limited f (c' :: r') []);
        [now rewrite IH2|now rewrite IH2|exact I]. }
    destruct (ch_is c "[").
    { destruct (skip_ws r) as [|c' r']; [reflexivity|].
      destruct (ch_is c' "]"); [reflexivity|].
      specialize (IH3 (c' :: r') []).
      destruct (elements_limited f (c' :: r') []);
        [now rewrite IH3|now rewrite IH3|exact I]. }
    destruct (constant (c :: r)) as [[v r']|]; [reflexivity|].
    apply match_number_limited_agree.
  - intros [|c r] acc; [reflexivity|].
    cbn [members_limited members].
    destruct (c =? quote)%N; [|reflexivity].
    destruct (scanstring (List.length r) r []) as [[k r1]|]; [|reflexivity].
    destruct (skip_ws r1) as [|colon r2]; [reflexivity|].
    destruct (ch_is colon ":"); [|reflexivity].
    specialize (IH1 (skip_ws r2)).
    destruct (scan_once_limited f (skip_ws r2)) as [v r3| |e];
      [rewrite IH1|now rewrite IH1|exact I].
    cbv zeta.
    destruct (skip_ws r3) as [|c' r4]; [reflexivity|].
    destruct (ch_is c' "}"); [reflexivity|].
    destruct (ch_is c' ","); [apply IH2|reflexivity].
  - intros s acc; cbn [elements_limited elements].
    specialize (IH1 s).
    destruct (scan_once_limited f s) as [v r1| |e];
      [rewrite IH1|now rewrite IH1|exact I].
    destruct (skip_ws r1) as [|c' r2]; [reflexivity|].
    destruct (ch_is c' "]"); [reflexivity|].
    destruct (ch_is c' ","); [apply IH3|reflexivity].
Qed.

(** [loads_limited] is [loads] on every text it does not refuse. *)
Lemma loads_limited_agree (s : str) :
  (exists e, loads_limited s = LoadsRaised e) \/ loads_limited s = loads s.
Proof.
  unfold loads_limited, loads.
  pose proof (proj1 (scan_limited_agree (S (List.length s))) (skip_ws s))
    as H.
  destruct (scan_once_limited (S (List.length s)) (skip_ws s))
    as [v r| |e].
  - right; rewrite H; reflexivity.
  - right; rewrite H; reflexivity.
  - destruct s as [|c s]; [left; now exists e|].
    destruct c as [|p]; [left; now exists e|].
    destruct (Pos.eq_dec p 65279) as [->|Hp]; [right; reflexivity|].
    left; exists e.
    repeat (destruct p as [p|p|]; try reflexivity; try congruence).
Qed.

End LimitFacts.

(** ** Claims on the splitter *)

Section SplitterClaims.

Variable json_loads : str -> loads_result.
Variable repr : value -> str.
Variable now : datetime.

Local Abbreviation render_candidate := (render_candidate json_loads repr now).
Local Abbreviation process_stripped := (process_stripped json_loads repr now).
Local Abbreviation loop_body := (loop_body json_loads repr now).

Lemma truthy_app_cons (p r : str) (c : char) :
  Str.truthy (p ++ c :: r) = true.
Proof. now destruct p. Qed.

(** C1. For a line made of a prefix without an opening brace, the text of a
    JSON object (flat or nested) and a suffix without a closing brace, the
    splitter recovers exactly the trimmed prefix, the object as the
    candidate and the trimmed suffix; the read loop prints the trimmed
    prefix and the trimmed suffix, each only if it is not empty, and gives
    the object to the formatter stage. *)
Theorem C1_split_recovers_object (pre obj suf : str) :
  ~ In lbrace pre -> ~ In rbrace suf -> object_text obj ->
  split (pre ++ obj ++ suf)
  = {| prefix := strip pre; candidate := Some obj; suffix := strip suf |}
  /\ loop_body (pre ++ obj ++ suf)
     = (print_if_any (strip pre) ;;
        print_if_any (strip suf) ;;
        render_candidate obj).
Proof.
  intros Hpre Hsuf Hobj.
  destruct (object_text_braces obj Hobj) as [body ->].
  split; [now apply split_around|].
  rewrite loop_body_strip, strip_around by reflexivity.
  cbn [app]; rewrite truthy_app_cons.
  change (lstrip pre ++ lbrace :: (body ++ [rbrace]) ++ rstrip suf)
    with (lstrip pre ++ (lbrace :: body ++ [rbrace]) ++ rstrip suf).
  rewrite process_stripped_split, split_around.
  - cbn [candidate prefix suffix].
    now rewrite strip_lstrip, strip_rstrip.
  - intros H; now apply Hpre, in_lstrip.
  - intros H; now apply Hsuf, in_rstrip.
Qed.

Lemma split_no_brace (line : str) :
  ~ In lbrace line ->
  split line = {| prefix := []; candidate := None; suffix := [] |}.
Proof. intros H; unfold split; now rewrite find_notin. Qed.

Lemma process_stripped_no_brace (line : str) :
  ~ In lbrace line -> process_stripped line = ([Printed line], Ok tt).
Proof.
  intros H; rewrite process_stripped_split, split_no_brace by assumption.
  reflexivity.
Qed.

(** Without an opening brace the read loop prints the trimmed line, or
    nothing when the line is blank. *)
Lemma loop_body_no_brace (decoded : str) :
  ~ In lbrace decoded ->
  loop_body decoded =
  if Str.truthy (strip decoded) then ([Printed (strip decoded)], Ok tt)
  else ([], Ok tt).
Proof.
  intros H; rewrite loop_body_strip.
  destruct (Str.truthy (strip decoded)); [|reflexivity].
  apply process_stripped_no_brace; intros Hin; now apply H, in_strip.
Qed.

(** C4. For a line without an opening brace the splitter returns no
    candidate, the line is printed as it is, and [format_device_info] is
    not called. *)
Theorem C4_no_brace_plain_text (line : str) :
  ~ In lbrace line ->
  candidate (split line) = None
  /\ process_stripped line = ([Printed line], Ok tt)
  /\ calls (trace (loop_body line)) = []
  /\ (strip line = line -> line <> [] ->
      loop_body line = ([Printed line], Ok tt)).
Proof.
  intros H; repeat split.
  - now rewrite split_no_brace.
  - now apply process_stripped_no_brace.
  - rewrite loop_body_no_brace by assumption.
    now destruct (Str.truthy (strip line)).
  - intros E Hne; rewrite loop_body_stripped by assumption.
    now apply process_stripped_no_brace.
Qed.

(** C6. For a line with an opening brace and no closing brace at or after
    the first opening brace, the candidate is the line from that brace to
    its end and the suffix is empty. *)
Theorem C6_unclosed_brace (line : str) :
  In lbrace line ->
  ~ In rbrace (slice_from line (find line lbrace)) ->
  candidate (split line) = Some (slice_from line (find line lbrace))
  /\ suffix (split line) = []
  /\ process_stripped line
     = (print_if_any (prefix (split line)) ;;
        render_candidate (slice_from line (find line lbrace))).
Proof.
  intros Hin Hno.
  destruct (find_from_in lbrace line 0 Hin) as (p & r & -> & Hp & Hf).
  fold (find (p ++ lbrace :: r) lbrace) in Hf; cbn [Z.add] in Hf.
  rewrite Hf in *; rewrite slice_from_app in *.
  assert (Hs : split (p ++ lbrace :: r)
               = {| prefix := prefix (split (p ++ lbrace :: r));
                    candidate := Some (lbrace :: r);
                    suffix := [] |}).
  { unfold split; rewrite Hf.
    pose proof (len_nonneg p).
    destruct (Z.eqb_spec (len p) (-1)); [lia|].
    assert (Hrest : (if len p >? 0
                     then slice_from (p ++ lbrace :: r) (len p)
                     else p ++ lbrace :: r) = lbrace :: r).
    { destruct (Z.gtb_spec (len p) 0); [apply slice_from_app|].
      destruct p as [|x p]; [reflexivity|].
      rewrite len_cons in *; pose proof (len_nonneg p); lia. }
    rewrite Hrest, (rfind_notin _ _ Hno); reflexivity. }
  rewrite process_stripped_split, Hs; cbn [candidate suffix prefix].
  repeat split.
  unfold print_if_any at 2; cbn [Str.truthy].
  now rewrite bind_ret_l.
Qed.

(** C5, as amended.  When the splitter produces a candidate, the prefix,
    the candidate and the suffix are consecutive pieces of the line once
    the whitespace trimmed around the prefix and the suffix is put back;
    when it produces none, the whole line is printed as plain text. *)
Theorem C5_pieces_cover_the_line (line : str) :
  match candidate (split line) with
  | Some c =>
      exists w0 w1 w2 w3,
        all_space w0 /\ all_space w1 /\ all_space w2 /\ all_space w3 /\
        line = w0 ++ prefix (split line) ++ w1 ++ c
               ++ w2 ++ suffix (split line) ++ w3
  | None => process_stripped line = ([Printed line], Ok tt)
  end.
Proof.
  destruct (candidate (split line)) as [c|] eqn:Hc.
  - unfold split in *.
    destruct (find line lbrace =? -1); [discriminate|].
    set (js := find line lbrace) in *.
    assert (Hpre : exists w0 w1 rest,
               all_space w0 /\ all_space w1 /\
               (if js >? 0 then slice_from line js else line) = rest /\
               line = w0 ++ (if js >? 0 then strip (slice_to line js) else [])
                         ++ w1 ++ rest).
    { destruct (js >? 0).
      - destruct (strip_split (slice_to line js)) as (w0 & w1 & H0 & H1 & E).
        exists w0, w1, (slice_from line js); repeat split; try assumption.
        rewrite <- (slice_to_from line js) at 1.
        rewrite E at 1; now rewrite <- !app_assoc.
      - exists [], [], line; repeat split. }
    destruct Hpre as (w0 & w1 & rest & H0 & H1 & Hrest & Hline).
    rewrite Hrest in *; clear Hrest.
    set (je := rfind rest rbrace) in *.
    destruct ((je >? -1) && (je + 1 <? len rest)); cbn in Hc |- *;
      injection Hc as <-.
    + destruct (strip_split (slice_from rest (je + 1)))
        as (w2 & w3 & H2 & H3 & E).
      exists w0, w1, w2, w3; repeat split; try assumption.
      rewrite Hline at 1; do 3 f_equal.
      rewrite <- (slice_to_from rest (je + 1)) at 1.
      now rewrite E at 1.
    + exists w0, w1, [], []; repeat split; try assumption.
      rewrite Hline at 1; now rewrite !app_nil_r.
  - rewrite process_stripped_split, Hc; reflexivity.
Qed.

End SplitterClaims.

(** C5, as stated, fails: the prefix and the suffix are trimmed, so on the
    line [a {}] the three pieces give [a{}], which is no part of the line. *)
Lemma C5_counterexample :
  ~ (forall line c,
        candidate (split line) = Some c ->
        contiguous_span
          (prefix (split line) ++ c ++ suffix (split line)) line).
Proof.
  intros H.
  assert (Hs : split (u "a {}")
               = {| prefix := u "a"; candidate := Some (u "{}"); suffix := [] |})
    by (vm_compute; reflexivity).
  specialize (H (u "a {}") (u "{}")); rewrite Hs in H.
  destruct (H eq_refl) as (l & r & E); clear H Hs.
  cbn [prefix suffix] in E.
  assert (L : List.length (u "a {}")
              = List.length (l ++ (u "a" ++ u "{}" ++ []) ++ r))
    by now rewrite <- E.
  rewrite !length_app in L; cbn in L.
  destruct l as [|x [|y l]]; [| |cbn in L; lia]; vm_compute in E;
    discriminate E.
Qed.

(** ** Numbers on the Distance and RSSI lines *)

Section NumberFacts.

Lemma float_limit_gt : 100 < float_limit.
Proof. reflexivity. Qed.

Lemma float_of_int_ok z :
  Z.abs z < float_limit ->
  float_of_int z = Ok (binary_normalize prec emax z 0 false).
Proof.
  intros H; unfold float_of_int.
  destruct (Z.leb_spec float_limit (Z.abs z)); [lia|reflexivity].
Qed.

Lemma float_of_int_overflow z :
  float_limit <= Z.abs z -> float_of_int z = Raised OverflowError.
Proof.
  intros H; unfold float_of_int.
  destruct (Z.leb_spec float_limit (Z.abs z)); [reflexivity|lia].
Qed.

Lemma int_true_divide_100_ok z :
  Z.abs z < float_limit -> exists f, int_true_divide z 100 = Ok f.
Proof.
  intros H; unfold int_true_divide; pose proof float_limit_gt.
  change (100 =? 0) with false; cbv iota.
  destruct (Z.leb_spec (float_limit * Z.abs 100) (Z.abs z)).
  { change (Z.abs 100) with 100 in *; lia. }
  destruct (z =? 0); [eexists; reflexivity|].
  destruct (SFdiv_core_binary prec emax (Z.abs z) 0 (Z.abs 100) 0)
    as [[q e] l].
  eexists; reflexivity.
Qed.

Lemma format_2f_ok v :
  fits_float v = true -> exists t, format_2f v = Ok t.
Proof.
  destruct v as [|b|z|f|s|l|d]; try discriminate; intros H; cbn.
  - destruct b; eexists; reflexivity.
  - apply Z.ltb_lt in H; rewrite float_of_int_ok by assumption.
    eexists; reflexivity.
  - eexists; reflexivity.
Qed.

Lemma format_2f_raises v :
  fits_float v = false -> exists e, format_2f v = Raised e.
Proof.
  destruct v as [|b|z|f|s|l|d]; try discriminate; intros H; cbn;
    try (eexists; reflexivity).
  apply Z.ltb_ge in H; rewrite float_of_int_overflow by assumption.
  eexists; reflexivity.
Qed.

Lemma truediv_100_ok v :
  fits_float v = true -> exists f, truediv v (VInt 100) = Ok (VFloat f).
Proof.
  destruct v as [|b|z|f|s|l|d]; try discriminate; intros H;
    unfold truediv; cbn [as_number].
  - destruct (int_true_divide_100_ok (Z.b2z b)) as [f ->].
    + pose proof float_limit_gt; destruct b; cbn; lia.
    + eexists; reflexivity.
  - apply Z.ltb_lt in H.
    destruct (int_true_divide_100_ok z H) as [f' ->].
    eexists; reflexivity.
  - eexists; reflexivity.
Qed.

End NumberFacts.

(** ** The formatter *)

Section FormatterFacts.

Variable repr : value -> str.
Variable now : datetime.

Local Abbreviation format_device_info := (format_device_info repr now).
Local Abbreviation device_block := (device_block repr).
Local Abbreviation to_str := (to_str repr).
Local Abbreviation shows := (shows repr).

(** [format_device_info] on a [dict], with its reads of the fields made
    explicit. *)
Lemma format_device_info_dict (d : list (str * value)) :
  format_device_info (VDict d) =
  let ty := field d (u "type") VNone in
  if eq_str ty (u "device_found") then
    device_block
      (field d (u "device_addr") (VStr (u "Unknown")))
      (field d (u "distance_cm") (VInt 0))
      (field d (u "rssi_dbm") (VInt 0))
      (field d (u "timestamp_ms") (VInt 0))
      (field d (u "channel") (VInt 0))
      (field d (u "prf") (VInt 0))
      (field d (u "frame_quality") (VInt 0))
  else if eq_str ty (u "status") then
    print (u "[" ++ strftime_HMS now ++ u "] STATUS: "
             ++ to_str (field d (u "message") (VStr [])))
  else if eq_str ty (u "error") then
    print (u "[" ++ strftime_HMS now ++ u "] ERROR: "
             ++ to_str (field d (u "message") (VStr [])))
  else ret tt.
Proof.
  unfold format_device_info, get; fold (field d (u "type") VNone).
  cbv zeta; rewrite bind_ret_l.
  destruct (eq_str (field d (u "type") VNone) (u "device_found")).
  - now rewrite !bind_ret_l.
  - rewrite bind_ret_l.
    destruct (eq_str (field d (u "type") VNone) (u "status")).
    + now rewrite bind_ret_l.
    + rewrite bind_ret_l.
      destruct (eq_str (field d (u "type") VNone) (u "error"));
        [now rewrite bind_ret_l|reflexivity].
Qed.

(** Anything but a [dict] has no [get]. *)
Lemma format_device_info_not_dict (info : value) :
  (forall d, info <> VDict d) ->
  format_device_info info = ([], Raised AttributeError).
Proof.
  intros H; destruct info; try reflexivity.
  now destruct (H d).
Qed.

(** The texts the formatter builds itself are encoded. *)
Lemma encodable_strftime : encodable (strftime_HMS now) = true.
Proof.
  unfold strftime_HMS, pad2.
  destruct (Z.of_nat (hour now) <? 10), (Z.of_nat (minute now) <? 10),
    (Z.of_nat (second now) <? 10);
    now rewrite ?encodable_app, ?encodable_u, ?encodable_str_of_int.
Qed.

Lemma encodable_float_format_2f (f : spec_float) :
  encodable (float_format_2f f) = true.
Proof.
  destruct f as [s|s| |s m e]; cbn [float_format_2f];
    try reflexivity; unfold fixed2, sign_str; destruct s;
    now rewrite ?encodable_app, ?encodable_u, ?encodable_str_of_int.
Qed.

Lemma encodable_format_2f (v : value) (t : str) :
  format_2f v = Ok t -> encodable t = true.
Proof.
  destruct v as [|b|z|f|s|l|d]; cbn [format_2f]; try discriminate.
  - destruct (float_of_int (Z.b2z b)); [|discriminate].
    intros [= <-]; apply encodable_float_format_2f.
  - destruct (float_of_int z); [|discriminate].
    intros [= <-]; apply encodable_float_format_2f.
  - intros [= <-]; apply encodable_float_format_2f.
Qed.

(** The message line of a [status] or [error] record is encoded exactly
    when the text of the message is. *)
Lemma encodable_message (tag : string) (msg : value) :
  encodable (u "[" ++ strftime_HMS now ++ u tag ++ to_str msg) = shows msg.
Proof.
  now rewrite !encodable_app, !encodable_u, encodable_strftime.
Qed.

Lemma format_error_some v e :
  format_error v = Some e -> format_2f v = Raised e.
Proof.
  destruct v as [|b|z|f|s|l|d]; cbn [format_error format_2f];
    try (intros [= <-]; reflexivity); try discriminate.
  destruct (Z.leb_spec float_limit (Z.abs z)); [|discriminate].
  intros [= <-]; now rewrite float_of_int_overflow.
Qed.

Lemma format_error_none v : format_error v = None <-> fits_float v = true.
Proof.
  destruct v as [|b|z|f|s|l|d]; cbn [format_error fits_float];
    try (split; discriminate); try (split; reflexivity).
  destruct (Z.leb_spec float_limit (Z.abs z)) as [L|L]; split;
    try discriminate; try reflexivity.
  - intros K; apply Z.ltb_lt in K; lia.
  - intros _; now apply Z.ltb_lt.
Qed.

(** The block stops at the first line it cannot render, and prints its ten
    lines when there is none. *)
Lemma device_block_stops addr dist rssi timestamp channel prf quality :
  let run := device_block addr dist rssi timestamp channel prf quality in
  match block_failure repr addr dist rssi timestamp channel prf quality with
  | Some (n, e) =>
      outcome run = Raised e /\ List.length (stdout (trace run)) = n
  | None => outcome run = Ok tt /\ List.length (stdout (trace run)) = 10%nat
  end.
Proof.
  cbv zeta; unfold device_block, block_failure.
  rewrite (bind_print (newline :: rule)).
  change (encodable (newline :: rule)) with true; cbv iota.
  rewrite (bind_print (u "Device Found: 0x" ++ _)).
  rewrite encodable_app, encodable_u; cbn [andb]; fold (shows addr).
  destruct (shows addr); cbn [negb]; [|now split].
  rewrite (bind_print rule).
  change (encodable rule) with true; cbv iota.
  rewrite (bind_print (u "Timestamp:      " ++ _)).
  rewrite !encodable_app, !encodable_u, andb_true_r; cbn [andb].
  fold (shows timestamp).
  destruct (shows timestamp); cbn [negb]; [|now split].
  destruct (format_error dist) as [e|] eqn:Ed.
  { rewrite (format_error_some _ _ Ed), bind_lift_raised; now split. }
  apply format_error_none in Ed.
  destruct (format_2f_ok dist Ed) as [cm Hcm]; rewrite Hcm.
  destruct (truediv_100_ok dist Ed) as [q ->].
  rewrite !bind_lift_ok; cbn [format_2f]; rewrite bind_lift_ok.
  rewrite (bind_print (u "Distance:       " ++ _)).
  rewrite !encodable_app, !encodable_u, (encodable_format_2f _ _ Hcm),
    encodable_float_format_2f; cbn [andb].
  destruct (format_error rssi) as [e|] eqn:Er.
  { rewrite (format_error_some _ _ Er), bind_lift_raised; now split. }
  apply format_error_none in Er.
  destruct (format_2f_ok rssi Er) as [dbm Hdbm]; rewrite Hdbm.
  rewrite bind_lift_ok.
  rewrite (bind_print (u "RSSI:           " ++ _)).
  rewrite !encodable_app, !encodable_u, (encodable_format_2f _ _ Hdbm);
    cbn [andb].
  rewrite (bind_print (u "Channel:        " ++ _)).
  rewrite encodable_app, encodable_u; cbn [andb]; fold (shows channel).
  destruct (shows channel); cbn [negb]; [|now split].
  rewrite (bind_print (u "PRF:            " ++ _)).
  rewrite !encodable_app, !encodable_u, andb_true_r; cbn [andb].
  fold (shows prf).
  destruct (shows prf); cbn [negb]; [|now split].
  rewrite (bind_print (u "Frame Quality:  " ++ _)).
  rewrite encodable_app, encodable_u; cbn [andb]; fold (shows quality).
  destruct (shows quality); cbn [negb]; [|now split].
  rewrite (print_ok rule) by reflexivity; now split.
Qed.




End FormatterFacts.

(** ** Dictionaries *)

Section DictFacts.

Implicit Types (d : list (str * value)) (k : str) (v : value).

Lemma lookup_store_same d k v : lookup (store d k v) k = Some v.
Proof.
  induction d as [|[k' v'] d IH]; cbn.
  - now rewrite eqb_refl.
  - destruct (Str.eqb k' k) eqn:E; cbn; now rewrite E.
Qed.

Lemma lookup_store_other d k k' v :
  k <> k' -> lookup (store d k v) k' = lookup d k'.
Proof.
  intros Hne; induction d as [|[k0 v0] d IH]; cbn.
  - destruct (Str.eqb k k') eqn:E; [|reflexivity].
    apply eqb_eq in E; contradiction.
  - destruct (Str.eqb k0 k) eqn:E; cbn.
    + apply eqb_eq in E; subst k0.
      destruct (Str.eqb k k') eqn:E'; [|reflexivity].
      apply eqb_eq in E'; contradiction.
    + now rewrite IH.
Qed.

Lemma eq_str_true v s : eq_str v s = true <-> v = VStr s.
Proof.
  destruct v; cbn; split; try easy.
  - intros H; apply eqb_eq in H; now subst.
  - intros [= ->]; apply eqb_refl.
Qed.

Lemma field_type_not d s :
  lookup d (u "type") <> Some (VStr s) ->
  eq_str (field d (u "type") VNone) s = false.
Proof.
  intros H; destruct (eq_str _ s) eqn:E; [|reflexivity].
  apply eq_str_true in E; unfold field in E.
  destruct (lookup d (u "type")); [|discriminate]; now subst.
Qed.

End DictFacts.

(** ** Claims on the formatter *)

Section FormatterClaims.

Variable json_loads : str -> loads_result.
Variable repr : value -> str.
Variable now : datetime.

Local Abbreviation parse_device_info := (parse_device_info json_loads).
Local Abbreviation format_device_info := (format_device_info repr now).
Local Abbreviation render_candidate := (render_candidate json_loads repr now).
Local Abbreviation process_stripped := (process_stripped json_loads repr now).
Local Abbreviation loop_body := (loop_body json_loads repr now).

Lemma render_decoded (cand : str) (v : value) :
  json_loads cand = Decoded v ->
  render_candidate cand =
  if truthy v then emit (Formatting v) ;; format_device_info v
  else print_piece cand.
Proof.
  intros H; unfold render_candidate, parse_device_info; rewrite H.
  now rewrite bind_ret_l.
Qed.

(** An exception of [json.loads] other than [JSONDecodeError] is not
    caught by [parse_device_info]: nothing is printed and it goes on to
    [main]. *)
Lemma render_loads_raised (cand : str) (e : exn) :
  json_loads cand = LoadsRaised e ->
  render_candidate cand = ([], Raised e).
Proof.
  intros H; unfold render_candidate, parse_device_info; now rewrite H.
Qed.

(** C3 fails on the code.  When [json.loads] rejects a candidate with an
    exception other than [JSONDecodeError] (a [ValueError] for an integer
    of more than 4300 digits, a [RecursionError] for brackets nested too
    deep), line 18 does not catch it: the candidate is not printed, and
    the line that holds it ends the iteration with that exception, for
    which [main] has no handler. *)
Theorem C3_decoder_exception_escapes (line cand : str) (e : exn) :
  candidate (split line) = Some cand ->
  json_loads cand = LoadsRaised e ->
  render_candidate cand = ([], Raised e)
  /\ outcome (process_stripped line) = Raised e
  /\ calls (trace (process_stripped line)) = [].
Proof.
  intros Hc He; pose proof (render_loads_raised cand e He) as R.
  split; [exact R|].
  rewrite process_stripped_split, Hc, R; unfold print_if_any.
  destruct (Str.truthy (prefix (split line))),
    (Str.truthy (suffix (split line)));
    rewrite ?bind_print_piece, ?bind_ret_l; now split.
Qed.

(** C9. The candidate [{}] decodes to the empty object, which is false as
    a condition: it is printed as it is and [format_device_info] is not
    called. *)
Theorem C9_empty_object_printed_raw :
  Json.loads (u "{}") = Decoded (VDict []) /\
  (json_loads (u "{}") = Decoded (VDict []) ->
   render_candidate (u "{}") = ([Printed (u "{}")], Ok tt) /\
   loop_body (u "{}") = ([Printed (u "{}")], Ok tt) /\
   calls (trace (loop_body (u "{}"))) = []).
Proof.
  split; [vm_compute; reflexivity|]; intros H.
  assert (R : render_candidate (u "{}") = ([Printed (u "{}")], Ok tt))
    by (rewrite (render_decoded _ _ H); reflexivity).
  assert (L : loop_body (u "{}") = ([Printed (u "{}")], Ok tt)).
  { rewrite loop_body_stripped by (try discriminate; reflexivity).
    rewrite process_stripped_split.
    replace (split (u "{}"))
      with {| prefix := []; candidate := Some (u "{}"); suffix := [] |}
      by (vm_compute; reflexivity).
    cbn [candidate prefix suffix print_if_any Str.truthy].
    now rewrite !bind_ret_l. }
  repeat split; try assumption.
  now rewrite L.
Qed.




(** C7. In a record of a known kind an absent field renders as the field
    set to its default would ([Unknown] for the address, [0] for the
    numbers, the empty string for the message); a [device_found] record
    without any field renders to the block of defaults, a [status] or
    [error] record without message to its tag alone, without error. *)
Theorem C7_absent_fields_render_defaults
  (d : list (str * value)) (kind : str) :
  lookup d (u "type") = Some (VStr kind) ->
  (forall k dflt,
      In (k, dflt) (defaults kind) -> lookup d k = None ->
      format_device_info (VDict d)
      = format_device_info (VDict (store d k dflt)))
  /\ (kind = u "device_found" ->
      (forall k dflt, In (k, dflt) (defaults kind) -> lookup d k = None) ->
      format_device_info (VDict d) = (default_block, Ok tt))
  /\ (kind = u "status" -> lookup d (u "message") = None ->
      format_device_info (VDict d)
      = ([Printed (u "[" ++ strftime_HMS now ++ u "] STATUS: ")], Ok tt))
  /\ (kind = u "error" -> lookup d (u "message") = None ->
      format_device_info (VDict d)
      = ([Printed (u "[" ++ strftime_HMS now ++ u "] ERROR: ")], Ok tt)).
Proof.
  intros Hty; repeat split.
  - intros k dflt Hin Habs; rewrite !format_device_info_dict; cbv zeta.
    unfold defaults in Hin.
    destruct (Str.eqb kind (u "device_found")) eqn:E1;
      [|destruct (Str.eqb kind (u "status") || Str.eqb kind (u "error"))];
      cbn [In] in Hin;
      repeat (destruct Hin as [Hin|Hin]; [injection Hin as <- <-|]);
      try contradiction;
      unfold field; literals;
      repeat first
        [ rewrite lookup_store_same
        | rewrite lookup_store_other by discriminate ];
      rewrite ?Habs; reflexivity.
  - intros -> Habs; rewrite format_device_info_dict; cbv zeta.
    unfold field; rewrite Hty.
    rewrite (Habs (u "device_addr") (VStr (u "Unknown"))),
      (Habs (u "distance_cm") (VInt 0)), (Habs (u "rssi_dbm") (VInt 0)),
      (Habs (u "timestamp_ms") (VInt 0)), (Habs (u "channel") (VInt 0)),
      (Habs (u "prf") (VInt 0)), (Habs (u "frame_quality") (VInt 0))
      by (vm_compute; auto 10).
    vm_compute; reflexivity.
  - intros -> Habs; rewrite format_device_info_dict; cbv zeta.
    unfold field; rewrite Hty, Habs.
    change (eq_str (VStr (u "status")) (u "device_found")) with false.
    change (eq_str (VStr (u "status")) (u "status")) with true.
    cbv iota; rewrite print_ok by (now rewrite encodable_message).
    reflexivity.
  - intros -> Habs; rewrite format_device_info_dict; cbv zeta.
    unfold field; rewrite Hty, Habs.
    change (eq_str (VStr (u "error")) (u "device_found")) with false.
    change (eq_str (VStr (u "error")) (u "status")) with false.
    change (eq_str (VStr (u "error")) (u "error")) with true.
    cbv iota; rewrite print_ok by (now rewrite encodable_message).
    reflexivity.
Qed.


(** C10. A decoded, non-empty object whose [type] is absent or is none of
    [device_found], [status] and [error] makes [format_device_info] print
    nothing and return without error. *)
Theorem C10_unknown_type_silent (d : list (str * value)) :
  d <> [] ->
  (forall s, In s [u "device_found"; u "status"; u "error"] ->
             lookup d (u "type") <> Some (VStr s)) ->
  format_device_info (VDict d) = ([], Ok tt)
  /\ (forall cand,
         json_loads cand = Decoded (VDict d) ->
         render_candidate cand = ([Formatting (VDict d)], Ok tt)).
Proof.
  intros Hne Hty.
  assert (F : format_device_info (VDict d) = ([], Ok tt)).
  { rewrite format_device_info_dict; cbv zeta.
    rewrite !field_type_not by (apply Hty; cbn; auto).
    reflexivity. }
  split; [exact F|].
  intros cand H; rewrite (render_decoded _ _ H).
  destruct d; [contradiction|].
  cbn [truthy]; rewrite bind_emit, F; reflexivity.
Qed.

End FormatterClaims.

(** ** Closed instances *)

(** The spec's first scenario: a log prefix, then a status record. *)
Example scenario_status :
  loop_body Json.loads plain_repr noon (u "Zephyr: init " ++ status_text)
  = ([ Printed (u "Zephyr: init");
       Formatting (VDict (items_of status_text));
       Printed (u "[12:00:07] STATUS: scanning") ], Ok tt).
Proof. vm_compute; reflexivity. Qed.

(** The spec's second scenario: a full [device_found] record. *)
Example scenario_device_found :
  stdout (trace (loop_body Json.loads plain_repr noon device_text))
  = [ newline :: rule;
      u "Device Found: 0x1A2B3C4D";
      rule;
      u "Timestamp:      9001 ms";
      u "Distance:       123.45 cm (1.23 m)";
      u "RSSI:           -72.50 dBm";
      u "Channel:        5";
      u "PRF:            64 MHz";
      u "Frame Quality:  87";
      rule ].
Proof. vm_compute; reflexivity. Qed.

(** The spec's third scenario: a line without braces. *)
Example scenario_plain :
  loop_body Json.loads plain_repr noon (u "Booting UWB firmware v1.2")
  = ([Printed (u "Booting UWB firmware v1.2")], Ok tt).
Proof. vm_compute; reflexivity. Qed.

(** A distance that is a string stops the monitor with [ValueError] after
    the first four lines of the block. *)
Example bad_distance_raises :
  Json.loads bad_distance_text = Decoded (VDict (items_of bad_distance_text))
  /\ loop_body Json.loads plain_repr noon bad_distance_text
     = ([ Formatting (VDict (items_of bad_distance_text));
          Printed (newline :: rule);
          Printed (u "Device Found: 0xUnknown");
          Printed rule;
          Printed (u "Timestamp:      0 ms") ], Raised ValueError).
Proof. split; vm_compute; reflexivity. Qed.

(** An integer beyond the range of [float] stops it with [OverflowError]. *)
Example huge_distance_raises :
  outcome (format_device_info plain_repr noon
             (VDict [ (u "type", VStr (u "device_found"));
                      (u "distance_cm", VInt (10 ^ 400)) ]))
  = Raised OverflowError.
Proof. vm_compute; reflexivity. Qed.

(** Distance lines: an [int], a [bool], and two floats whose hundredth is
    not a binary fraction, so that the meters show the rounding of the
    division ([0.5 / 100] is just above [0.005], [1.5 / 100] just below
    [0.015]). *)
Example distance_lines :
  map (fun text =>
         nth_error
           (stdout (trace (loop_body Json.loads plain_repr noon (jtext text))))
           4)
    [ "{'type':'device_found','distance_cm':12345}";
      "{'type':'device_found','distance_cm':true}";
      "{'type':'device_found','distance_cm':0.5}";
      "{'type':'device_found','distance_cm':1.5}";
      "{'type':'device_found','distance_cm':-0.0}";
      "{'type':'device_found','distance_cm':1e999}" ]%string
  = [ Some (u "Distance:       12345.00 cm (123.45 m)");
      Some (u "Distance:       1.00 cm (0.01 m)");
      Some (u "Distance:       0.50 cm (0.01 m)");
      Some (u "Distance:       1.50 cm (0.01 m)");
      Some (u "Distance:       -0.00 cm (-0.00 m)");
      Some (u "Distance:       inf cm (inf m)") ].
Proof. vm_compute; reflexivity. Qed.

(** A message that is a lone surrogate decodes, and stops the monitor with
    [UnicodeEncodeError] when it is printed. *)
Example surrogate_message_raises :
  Json.loads surrogate_text
  = Decoded (VDict [ (u "type", VStr (u "status"));
                     (u "message", VStr [55296%N]) ])
  /\ loop_body Json.loads plain_repr noon surrogate_text
     = ([Formatting (VDict (items_of surrogate_text))],
        Raised UnicodeEncodeError).
Proof. split; vm_compute; reflexivity. Qed.

(** So does an address, after the first line of the block. *)
Example surrogate_address_raises :
  loop_body Json.loads plain_repr noon surrogate_addr_text
  = ([ Formatting (VDict (items_of surrogate_addr_text));
       Printed (newline :: rule) ], Raised UnicodeEncodeError).
Proof. vm_compute; reflexivity. Qed.

(** An integer of 4300 digits is decoded, one of 4301 is refused, also in a
    text that is cut short after it; without the limit that text is only
    malformed. *)
Example digit_limit :
  Json.loads_limited (jtext "{'a':" ++ repeat 49%N 4300 ++ u "}")
  = Json.loads (jtext "{'a':" ++ repeat 49%N 4300 ++ u "}")
  /\ Json.loads_limited (jtext "{'a':" ++ repeat 49%N 4300)
     = JSONDecodeError
  /\ Json.loads_limited (jtext "{'a':" ++ repeat 49%N 4301 ++ u "}")
     = LoadsRaised ValueError
  /\ Json.loads_limited long_number_text = LoadsRaised ValueError
  /\ Json.loads long_number_text = JSONDecodeError.
Proof. repeat split; vm_compute; reflexivity. Qed.

(** A line cut short in such an integer stops the monitor: the line after
    it is never processed. *)
Example long_number_stops_the_monitor :
  snd (main Json.loads_limited plain_repr sample_args
         {| log_opens := true; port_opening := Opens;
            reads := [ Text (u "Zephyr: rx " ++ long_number_text) noon;
                       Text status_text noon ] |})
  = Uncaught ValueError.
Proof. vm_compute; reflexivity. Qed.


Lemma C1_witness :
  split (u "Zephyr: init " ++ status_text ++ u " ok")
  = {| prefix := strip (u "Zephyr: init ");
       candidate := Some status_text;
       suffix := strip (u " ok") |}
  /\ loop_body Json.loads plain_repr noon
       (u "Zephyr: init " ++ status_text ++ u " ok")
     = (print_if_any (strip (u "Zephyr: init ")) ;;
        print_if_any (strip (u " ok")) ;;
        render_candidate Json.loads plain_repr noon status_text).
Proof.
  apply (C1_split_recovers_object Json.loads plain_repr noon).
  - vm_compute; intuition discriminate.
  - vm_compute; intuition discriminate.
  - exists (items_of status_text); vm_compute; reflexivity.
Defined.


Lemma C3_witness :
  let line := u "Zephyr: rx " ++ long_number_text in
  render_candidate Json.loads_limited plain_repr noon long_number_text
  = ([], Raised ValueError)
  /\ outcome (process_stripped Json.loads_limited plain_repr noon line)
     = Raised ValueError
  /\ calls (trace (process_stripped Json.loads_limited plain_repr noon line))
     = [].
Proof.
  apply (C3_decoder_exception_escapes Json.loads_limited plain_repr noon).
  - vm_compute; reflexivity.
  - vm_compute; reflexivity.
Defined.

Lemma C4_witness :
  let line := u "Booting UWB firmware v1.2" in
  candidate (split line) = None
  /\ process_stripped Json.loads plain_repr noon line = ([Printed line], Ok tt)
  /\ calls (trace (loop_body Json.loads plain_repr noon line)) = []
  /\ (strip line = line -> line <> [] ->
      loop_body Json.loads plain_repr noon line = ([Printed line], Ok tt)).
Proof.
  apply (C4_no_brace_plain_text Json.loads plain_repr noon).
  vm_compute; intuition discriminate.
Defined.

Lemma C6_witness :
  let line := jtext "boot {'type':'device_found'," in
  candidate (split line) = Some (slice_from line (find line lbrace))
  /\ suffix (split line) = []
  /\ process_stripped Json.loads plain_repr noon line
     = (print_if_any (prefix (split line)) ;;
        render_candidate Json.loads plain_repr noon
          (slice_from line (find line lbrace))).
Proof.
  apply (C6_unclosed_brace Json.loads plain_repr noon).
  - vm_compute; auto 10.
  - vm_compute; intuition discriminate.
Defined.

Lemma C7_witness :
  let d := [(u "type", VStr (u "device_found"))] in
  format_device_info plain_repr noon (VDict d)
  = format_device_info plain_repr noon
      (VDict (store d (u "distance_cm") (VInt 0)))
  /\ format_device_info plain_repr noon (VDict d) = (default_block, Ok tt).
Proof.
  destruct (C7_absent_fields_render_defaults plain_repr noon
              [(u "type", VStr (u "device_found"))] (u "device_found")
              eq_refl) as (A & B & _).
  split.
  - apply A; [vm_compute; auto 10|reflexivity].
  - apply B; [reflexivity|].
    intros k dflt Hin; vm_compute in Hin.
    repeat (destruct Hin as [Hin|Hin]; [injection Hin as <- _; reflexivity|]).
    contradiction.
Defined.


Lemma C9_witness :
  render_candidate Json.loads plain_repr noon (u "{}")
  = ([Printed (u "{}")], Ok tt)
  /\ loop_body Json.loads plain_repr noon (u "{}")
     = ([Printed (u "{}")], Ok tt)
  /\ calls (trace (loop_body Json.loads plain_repr noon (u "{}"))) = [].
Proof.
  apply (C9_empty_object_printed_raw Json.loads plain_repr noon).
  vm_compute; reflexivity.
Defined.

Lemma C10_witness :
  let d := items_of other_text in
  format_device_info plain_repr noon (VDict d) = ([], Ok tt)
  /\ (forall cand,
         Json.loads cand = Decoded (VDict d) ->
         render_candidate Json.loads plain_repr noon cand
         = ([Formatting (VDict d)], Ok tt)).
Proof.
  apply (C10_unknown_type_silent Json.loads plain_repr noon).
  - vm_compute; discriminate.
  - intros s Hin; vm_compute in Hin |- *.
    repeat (destruct Hin as [Hin|Hin]; [subst s; discriminate|]).
    contradiction.
Defined.

(** * Further properties of the read loop's body *)

Section BodyExtras.

Variable json_loads : str -> loads_result.
Variable repr : value -> str.
Variable now : datetime.

Local Abbreviation format_device_info := (format_device_info repr now).
Local Abbreviation render_candidate := (render_candidate json_loads repr now).
Local Abbreviation process_stripped := (process_stripped json_loads repr now).
Local Abbreviation loop_body := (loop_body json_loads repr now).

(** X1. What line 82 gives is already trimmed: the second [strip] of line
    90 changes nothing, and the [continue] of line 92 is never taken. *)
Theorem second_strip_is_idle (decoded : str) :
  let line := strip decoded in
  strip line = line
  /\ (Str.truthy line = true -> negb (Str.truthy (strip line)) = false)
  /\ loop_body decoded
     = if Str.truthy line then process_stripped line else ret tt.
Proof.
  cbv zeta; rewrite strip_idem; repeat split.
  - now intros ->.
  - unfold loop_body; rewrite strip_idem.
    now destruct (strip decoded).
Qed.

Lemma strip_trimmed (s : str) : trimmed (strip s).
Proof. apply strip_idem. Qed.

Lemma find_from_lower c (s : str) i :
  0 <= i -> find_from c s i = -1 \/ i <= find_from c s i.
Proof.
  revert i; induction s as [|x s IH]; intros i Hi; cbn; [now left|].
  destruct (N.eqb x c); [right; lia|].
  destruct (IH (i + 1)) as [H|H]; [lia|now left|right; lia].
Qed.

Lemma rfind_from_in c (s : str) i last :
  In c s ->
  exists p r, s = p ++ c :: r /\ ~ In c r /\ rfind_from c s i last = i + len p.
Proof.
  revert i last; induction s as [|x s IH]; intros i last; [intros []|].
  intros Hin; cbn [rfind_from].
  destruct (in_dec N.eq_dec c s) as [Hs|Hs].
  - destruct (IH (i + 1) (if N.eqb x c then i else last) Hs)
      as (p & r & -> & Hr & Hf).
    exists (x :: p), r; repeat split; try assumption.
    rewrite Hf, len_cons; lia.
  - destruct Hin as [->|Hin]; [|contradiction].
    rewrite N.eqb_refl, rfind_from_notin by assumption.
    exists [], s; repeat split; try assumption.
    unfold len; cbn; lia.
Qed.

Lemma split_pieces (line c : str) :
  candidate (split line) = Some c ->
  (exists r, c = lbrace :: r)
  /\ ~ In lbrace (prefix (split line))
  /\ ~ In rbrace (suffix (split line))
  /\ trimmed (prefix (split line))
  /\ trimmed (suffix (split line))
  /\ (In rbrace c -> exists b, c = b ++ [rbrace]).
Proof.
  intros Hc.
  destruct (in_dec N.eq_dec lbrace line) as [Hin|Hno].
  2:{ unfold split in Hc; rewrite find_notin in Hc by assumption.
      discriminate Hc. }
  destruct (find_from_in lbrace line 0 Hin) as (p & r & -> & Hp & Hf).
  fold (find (p ++ lbrace :: r) lbrace) in Hf; cbn [Z.add] in Hf.
  unfold split in *; rewrite Hf in *.
  pose proof (len_nonneg p) as Hlen.
  destruct (Z.eqb_spec (len p) (-1)); [lia|].
  assert (Hrest : (if len p >? 0
                   then slice_from (p ++ lbrace :: r) (len p)
                   else p ++ lbrace :: r) = lbrace :: r).
  { destruct (Z.gtb_spec (len p) 0); [apply slice_from_app|].
    destruct p as [|x p]; [reflexivity|].
    rewrite len_cons in *; pose proof (len_nonneg p); lia. }
  assert (Hprefix : (if len p >? 0
                     then strip (slice_to (p ++ lbrace :: r) (len p))
                     else []) = strip p).
  { destruct (Z.gtb_spec (len p) 0); [now rewrite slice_to_app|].
    destruct p as [|x p]; [reflexivity|].
    rewrite len_cons in *; pose proof (len_nonneg p); lia. }
  rewrite Hrest, Hprefix in *; clear Hrest Hprefix.
  destruct (in_dec N.eq_dec rbrace (lbrace :: r)) as [Hr|Hr].
  - destruct (rfind_from_in rbrace (lbrace :: r) 0 (-1) Hr)
      as (b & s & E & Hs & Hrf).
    fold (rfind (lbrace :: r) rbrace) in Hrf; cbn [Z.add] in Hrf.
    rewrite Hrf in *; rewrite E in *.
    pose proof (len_nonneg b).
    assert (Hb : exists b', b ++ [rbrace] = lbrace :: b').
    { destruct b as [|x b]; [discriminate E|].
      injection E as -> _; now exists (b ++ [rbrace]). }
    replace (b ++ rbrace :: s) with ((b ++ [rbrace]) ++ s) in *
      by (now rewrite <- app_assoc).
    replace (len b + 1) with (len (b ++ [rbrace])) in *
      by (rewrite len_app; reflexivity).
    match type of Hc with
    | context [if ?cond then _ else _] => destruct cond eqn:C
    end; cbn [candidate prefix suffix] in *.
    + rewrite slice_to_app in Hc; rewrite slice_from_app.
      injection Hc as <-; repeat split.
      * exact Hb.
      * intros Hx; now apply Hp, in_strip.
      * intros Hx; now apply Hs, in_strip.
      * apply strip_trimmed.
      * apply strip_trimmed.
      * intros _; now exists b.
    + assert (s = []) as ->.
      { rewrite !len_app in C; change (len [rbrace]) with 1 in C.
        destruct (Z.gtb_spec (len b) (-1)); [|lia]; cbn [andb] in C.
        apply Z.ltb_ge in C.
        destruct s as [|x s]; [reflexivity|].
        rewrite len_cons in C; pose proof (len_nonneg s); lia. }
      rewrite app_nil_r in Hc; injection Hc as <-; repeat split.
      * exact Hb.
      * intros Hx; now apply Hp, in_strip.
      * intros [].
      * apply strip_trimmed.
      * intros _; now exists b.
  - rewrite (rfind_notin _ _ Hr) in *; cbn in Hc |- *.
    injection Hc as <-; repeat split.
    + now exists r.
    + intros Hx; now apply Hp, in_strip.
    + intros [].
    + apply strip_trimmed.
    + intros Hx; contradiction.
Qed.

(** X2. Whenever the splitter produces a candidate, the candidate starts at
    an opening brace, the prefix holds no opening brace and the suffix no
    closing brace, both are trimmed, and a candidate that holds a closing
    brace ends with one. *)
Theorem split_shape (line c : str) :
  candidate (split line) = Some c ->
  (exists r, c = lbrace :: r)
  /\ ~ In lbrace (prefix (split line))
  /\ ~ In rbrace (suffix (split line))
  /\ trimmed (prefix (split line))
  /\ trimmed (suffix (split line))
  /\ (In rbrace c -> exists b, c = b ++ [rbrace]).
Proof. apply split_pieces. Qed.

End BodyExtras.

(** * Further properties of the formatter stage *)

Section RenderExtras.

Variable json_loads : str -> loads_result.
Variable repr : value -> str.
Variable now : datetime.

Local Abbreviation format_device_info := (format_device_info repr now).
Local Abbreviation render_candidate := (render_candidate json_loads repr now).
Local Abbreviation process_stripped := (process_stripped json_loads repr now).
Local Abbreviation loop_body := (loop_body json_loads repr now).
Local Abbreviation device_block := (device_block repr).


(** What a [print] leaves in the trace is no call. *)
Lemma calls_print (s : str) : calls (trace (print s)) = [].
Proof. unfold print; now destruct (encodable s). Qed.

Lemma calls_bind_print {B} (s : str) (k : unit -> M B) :
  calls (trace (bind (print s) k)) =
  if encodable s then calls (trace (k tt)) else [].
Proof. rewrite bind_print; now destruct (encodable s). Qed.

(** [format_device_info] calls nothing but [print]. *)
Lemma format_device_info_calls (info : value) :
  calls (trace (format_device_info info)) = [].
Proof.
  destruct info as [| | | | | |d]; try reflexivity.
  rewrite format_device_info_dict; cbv zeta.
  destruct (eq_str _ (u "device_found")).
  - unfold device_block.
    repeat (rewrite calls_bind_print; cbv beta;
            match goal with
            | |- (if ?b then _ else _) = _ => destruct b; [|reflexivity]
            end).
    destruct (format_2f (field d (u "distance_cm") (VInt 0))) as [cm|e];
      [rewrite bind_lift_ok|reflexivity].
    destruct (truediv _ (VInt 100)) as [q|e];
      [rewrite bind_lift_ok|reflexivity].
    destruct (format_2f q) as [m|e]; [rewrite bind_lift_ok|reflexivity].
    rewrite calls_bind_print; cbv beta.
    match goal with
    | |- (if ?b then _ else _) = _ => destruct b; [|reflexivity]
    end.
    destruct (format_2f (field d (u "rssi_dbm") (VInt 0))) as [dbm|e];
      [rewrite bind_lift_ok|reflexivity].
    repeat (rewrite calls_bind_print; cbv beta;
            match goal with
            | |- (if ?b then _ else _) = _ => destruct b; [|reflexivity]
            end).
    apply calls_print.
  - destruct (eq_str _ (u "status")); [apply calls_print|].
    destruct (eq_str _ (u "error")); [apply calls_print|reflexivity].
Qed.

(** On an object, [format_device_info] raises nothing but what the two
    formats and [print] can raise. *)
Lemma format_device_info_dict_raises (d : list (str * value)) (e : exn) :
  outcome (format_device_info (VDict d)) = Raised e ->
  e = ValueError \/ e = TypeError \/ e = OverflowError
  \/ e = UnicodeEncodeError.
Proof.
  rewrite format_device_info_dict; cbv zeta.
  destruct (eq_str (field d (u "type") VNone) (u "device_found")) eqn:Hty.
  - match goal with
    | |- outcome (device_block ?a ?di ?r ?t ?c ?p ?q) = _ -> _ =>
        pose proof (device_block_stops repr a di r t c p q) as H;
        cbv zeta in H; unfold block_failure in H
    end.
    assert (K : forall v e', format_error v = Some e' ->
                  e' = ValueError \/ e' = TypeError \/ e' = OverflowError
                  \/ e' = UnicodeEncodeError).
    { intros [|b|z|f|s|l|d'] e'; cbn [format_error]; try discriminate;
        try (intros [= <-]; tauto).
      destruct (float_limit <=? Z.abs z); [intros [= <-]; tauto|discriminate]. }
    repeat match type of H with
           | context [if negb ?b then _ else _] => destruct b; cbn [negb] in H
           | context [format_error ?v] =>
               let E := fresh "E" in
               destruct (format_error v) eqn:E
           end;
      destruct H as [-> _]; intros [= <-];
      try (eapply K; eassumption); tauto.
  - unfold print.
    destruct (eq_str _ (u "status")).
    { destruct (encodable _); [discriminate|intros [= <-]; tauto]. }
    destruct (eq_str _ (u "error")); [|discriminate].
    destruct (encodable _); [discriminate|intros [= <-]; tauto].
Qed.

(** X4. With a decoder that gives only objects for texts in braces, the
    read loop calls [format_device_info] at most once per line, only with
    an object that is not empty, and that call never raises
    [AttributeError]. *)
Theorem formatter_gets_objects (line : str) :
  objects_only json_loads ->
  calls (trace (loop_body line)) = []
  \/ exists d,
       d <> [] /\ calls (trace (loop_body line)) = [VDict d]
       /\ outcome (format_device_info (VDict d)) <> Raised AttributeError.
Proof.
  intros Hobj; rewrite loop_body_strip.
  destruct (Str.truthy (strip line)); [|now left].
  generalize (strip line); clear line; intros line.
  rewrite process_stripped_split.
  destruct (candidate (split line)) as [c|] eqn:Hc; [|now left].
  destruct (split_pieces line c Hc) as ((r & ->) & _).
  set (p := prefix (split line)); set (s := suffix (split line)).
  assert (E : calls (trace (print_if_any p ;; print_if_any s ;;
                            render_candidate (lbrace :: r)))
              = calls (trace (render_candidate (lbrace :: r)))).
  { unfold print_if_any.
    destruct (Str.truthy p), (Str.truthy s);
      rewrite ?bind_print_piece, ?bind_ret_l; reflexivity. }
  rewrite E; clear E.
  unfold render_candidate, parse_device_info.
  destruct (json_loads (lbrace :: r)) as [v| |e] eqn:E.
  - destruct (Hobj r v E) as [d ->]; rewrite bind_ret_l.
    destruct d as [|kv d]; [now left|].
    cbn [truthy]; rewrite bind_emit; cbn [trace fst calls].
    rewrite format_device_info_calls.
    right; exists (kv :: d); repeat split; [discriminate|].
    intros H; apply format_device_info_dict_raises in H.
    destruct H as [H|[H|[H|H]]]; discriminate H.
  - now left.
  - now left.
Qed.

End RenderExtras.

Lemma decoded_members (o : option (list (str * value) * str)) (v : value) :
  match
    match o with
    | Some (d, r) => Some (VDict d, r)
    | None => None
    end
  with
  | Some (v0, r) =>
      match Json.skip_ws r with
      | [] => Decoded v0
      | _ :: _ => JSONDecodeError
      end
  | None => JSONDecodeError
  end = Decoded v ->
  exists d, v = VDict d.
Proof.
  destruct o as [[d r]|]; [|discriminate].
  destruct (Json.skip_ws r); [intros [= <-]; now eexists|discriminate].
Qed.

(** The reference decoder gives only objects for texts in braces. *)
Lemma reference_objects_only : objects_only Json.loads.
Proof.
  intros s v; unfold Json.loads; cbn.
  destruct (Json.skip_ws s) as [|c' r']; [discriminate|].
  destruct (Json.ch_is c' "}").
  - destruct (Json.skip_ws r'); [intros [= <-]; now eexists|discriminate].
  - intros H; eapply decoded_members; exact H.
Qed.

Section FallbackExtras.

Variable json_loads : str -> loads_result.
Variable repr : value -> str.

Local Abbreviation render_candidate := (render_candidate json_loads repr).
Local Abbreviation process_stripped := (process_stripped json_loads repr).

(** X5. A candidate is printed as it is, and nothing else happens, exactly
    when [json.loads] raises [JSONDecodeError] on it or gives a value that
    is false as a condition ([null], [false], a zero, an empty string, list
    or object). *)
Theorem raw_print_iff (now : datetime) (cand : str) :
  render_candidate now cand = ([Printed cand], Ok tt)
  <-> json_loads cand = JSONDecodeError
      \/ exists v, json_loads cand = Decoded v /\ truthy v = false.
Proof.
  unfold render_candidate, parse_device_info.
  destruct (json_loads cand) as [v| |e] eqn:E.
  - rewrite bind_ret_l; destruct (truthy v) eqn:T.
    + rewrite bind_emit; split; [discriminate|].
      intros [H|(v' & [= <-] & H)]; [discriminate|congruence].
    + split; [|reflexivity].
      intros _; right; now exists v.
  - rewrite bind_ret_l; split; [now left|reflexivity].
  - split; [discriminate|].
    intros [H|(v' & H & _)]; discriminate.
Qed.

(** X6. When the candidate of a line is printed as it is, the line comes out
    as its trimmed prefix, then its trimmed suffix, then the candidate: the
    text after the braces is printed before the text in braces. *)
Theorem fallback_order (now : datetime) (line c : str) :
  candidate (split line) = Some c ->
  render_candidate now c = ([Printed c], Ok tt) ->
  outcome (process_stripped now line) = Ok tt
  /\ calls (trace (process_stripped now line)) = []
  /\ stdout (trace (process_stripped now line))
     = (if Str.truthy (prefix (split line)) then [prefix (split line)]
        else [])
       ++ (if Str.truthy (suffix (split line)) then [suffix (split line)]
           else [])
       ++ [c].
Proof.
  intros Hc Hr; rewrite process_stripped_split, Hc, Hr.
  unfold print_if_any.
  destruct (Str.truthy (prefix (split line))),
    (Str.truthy (suffix (split line)));
    rewrite ?bind_print_piece, ?bind_ret_l; repeat split.
Qed.

(** X7. Only [status] and [error] records read the clock: any other value
    is formatted the same at any time. *)
Theorem clock_only_for_status_and_error (now1 now2 : datetime) (info : value) :
  (forall d, info = VDict d ->
             eq_str (field d (u "type") VNone) (u "status") = false /\
             eq_str (field d (u "type") VNone) (u "error") = false) ->
  format_device_info repr now1 info = format_device_info repr now2 info.
Proof.
  intros H; destruct info as [| | | | | |d]; try reflexivity.
  destruct (H d eq_refl) as [Hs He].
  rewrite !format_device_info_dict; cbv zeta; rewrite Hs, He.
  reflexivity.
Qed.

End FallbackExtras.

(** * Properties of the read loop and of [main] *)

Section MainFacts.

Variable json_loads : str -> loads_result.
Variable repr : value -> str.

Local Abbreviation loop := (read_loop json_loads repr).
Local Abbreviation after_log := (after_log json_loads repr).

Lemma loop_body_after_log (now : datetime) (decoded : str) :
  loop_body json_loads repr now decoded =
  if Str.truthy (strip decoded) then after_log now (strip decoded)
  else ret tt.
Proof. reflexivity. Qed.

Lemma console_app (t t' : list effect) :
  console (t ++ t') = console t ++ console t'.
Proof. apply flat_map_app. Qed.

Lemma log_file_app (t t' : list effect) :
  log_file (t ++ t') = log_file t ++ log_file t'.
Proof. apply flat_map_app. Qed.

Lemma count_app (p : effect -> bool) (t t' : list effect) :
  count p (t ++ t') = (count p t + count p t')%nat.
Proof. unfold count; now rewrite filter_app, length_app. Qed.

Lemma console_map (t : list event) : console (map Console t) = t.
Proof.
  induction t as [|e t IH]; [reflexivity|].
  unfold console in *; cbn; now f_equal.
Qed.

Lemma log_file_map (t : list event) : log_file (map Console t) = [].
Proof.
  induction t as [|e t IH]; [reflexivity|].
  unfold log_file in *; cbn; exact IH.
Qed.

Lemma count_map (p : effect -> bool) (t : list event) :
  (forall ev, p (Console ev) = false) -> count p (map Console t) = 0%nat.
Proof.
  intros H; unfold count; induction t as [|e t IH]; cbn; [reflexivity|].
  now rewrite H.
Qed.

Lemma count_log_line (p : effect -> bool) (logging : bool) (line : str) :
  (forall s, p (Logged s) = false) -> count p (log_line logging line) = 0%nat.
Proof. intros H; destruct logging; cbn; [now rewrite H|reflexivity]. Qed.

(** The loop works through the readings one after the other; once it is
    left, the readings that follow change nothing. *)
Lemma read_loop_app (logging : bool) (rs1 rs2 : list reading) :
  loop logging (rs1 ++ rs2) =
  match loop logging rs1 with
  | (t1, Still_reading) =>
      let (t2, s) := loop logging rs2 in (t1 ++ t2, s)
  | stopped => stopped
  end.
Proof.
  induction rs1 as [|r rs1 IH]; cbn [app read_loop].
  - now destruct (loop logging rs2).
  - destruct r as [decoded now| |msg|]; try assumption; try reflexivity.
    destruct (Str.truthy (strip decoded)); [|assumption].
    destruct (after_log now (strip decoded)) as [t [[]|e]]; [|reflexivity].
    rewrite IH.
    destruct (loop logging rs1) as [t1 [ | | | ]]; try reflexivity.
    destruct (loop logging rs2) as [t2 s].
    now rewrite <- !app_assoc.
Qed.

Lemma read_loop_silent (logging : bool) (rs : list reading) :
  forallb silent rs = true -> loop logging rs = ([], Still_reading).
Proof.
  induction rs as [|r rs IH]; [reflexivity|]; cbn [forallb].
  intros H; apply andb_true_iff in H as [Hr Hrs].
  destruct r as [decoded now| |msg|]; try discriminate; cbn.
  - cbn in Hr; apply negb_true_iff in Hr; rewrite Hr; now apply IH.
  - now apply IH.
Qed.

(** Neither the loop nor what surrounds it closes or opens anything while
    it reads. *)
Lemma read_loop_counts (logging : bool) (rs : list reading)
      (p : effect -> bool) :
  (forall ev, p (Console ev) = false) -> (forall s, p (Logged s) = false) ->
  count p (fst (loop logging rs)) = 0%nat.
Proof.
  intros Hc Hl; induction rs as [|r rs IH]; [reflexivity|].
  destruct r as [decoded now| |msg|]; cbn [read_loop]; try assumption;
    try reflexivity.
  destruct (Str.truthy (strip decoded)); [|assumption].
  destruct (after_log now (strip decoded)) as [t [[]|e]].
  - destruct (loop logging rs) as [t' s]; cbn [fst] in *.
    now rewrite !count_app, count_log_line, count_map, IH.
  - cbn [fst]; now rewrite count_app, count_log_line, count_map.
Qed.

Lemma read_loop_console (rs : list reading) :
  console (fst (loop true rs)) = console (fst (loop false rs))
  /\ snd (loop true rs) = snd (loop false rs).
Proof.
  induction rs as [|r rs [IHc IHs]]; [now split|].
  destruct r as [decoded now| |msg|]; cbn [read_loop]; try (now split).
  destruct (Str.truthy (strip decoded)); [|now split].
  destruct (after_log now (strip decoded)) as [t [[]|e]].
  - destruct (loop true rs) as [t1 s1], (loop false rs) as [t2 s2].
    cbn [fst snd] in *; subst; split; [|reflexivity].
    rewrite !console_app, IHc; reflexivity.
  - cbn [fst snd]; split; [|reflexivity].
    now rewrite !console_app.
Qed.

Lemma read_loop_log (rs : list reading) :
  exists rest,
    all_logged rs = log_file (fst (loop true rs)) ++ rest
    /\ (snd (loop true rs) = Still_reading -> rest = []).
Proof.
  induction rs as [|r rs (rest & E & H)]; [now exists []|].
  destruct r as [decoded now| |msg|]; cbn [all_logged read_loop].
  - destruct (Str.truthy (strip decoded)); [|now exists rest].
    destruct (after_log now (strip decoded)) as [t [[]|e]].
    + destruct (loop true rs) as [t' s]; cbn [fst snd] in *.
      exists rest; split; [|assumption].
      rewrite !log_file_app, log_file_map, E; cbn.
      now rewrite <- !app_assoc.
    + exists (all_logged rs); cbn [fst snd]; split; [|discriminate].
      rewrite log_file_app, log_file_map; cbn.
      now rewrite app_nil_r, <- !app_assoc.
  - now exists rest.
  - exists (all_logged rs); now split.
  - exists (all_logged rs); now split.
Qed.

Lemma read_loop_no_log (rs : list reading) :
  log_file (fst (loop false rs)) = [].
Proof.
  induction rs as [|r rs IH]; [reflexivity|].
  destruct r as [decoded now| |msg|]; cbn [read_loop]; try assumption;
    try reflexivity.
  destruct (Str.truthy (strip decoded)); [|assumption].
  destruct (after_log now (strip decoded)) as [t [[]|e]].
  - destruct (loop false rs) as [t' s]; cbn [fst log_line app] in *.
    now rewrite log_file_app, log_file_map, IH.
  - cbn [fst log_line app]; now rewrite log_file_map.
Qed.

End MainFacts.

Section MainExtras.

Variable json_loads : str -> loads_result.
Variable repr : value -> str.

Local Abbreviation loop := (read_loop json_loads repr).
Local Abbreviation go := (main json_loads repr).

(** X8. The loop works through the readings one after the other, carrying
    nothing from one to the next: on two batches of readings it does what
    it does on the first and then, if it is still reading, what it does on
    the second; once it is left, later readings change nothing. *)
Theorem readings_compose (logging : bool) (rs1 rs2 : list reading) :
  loop logging (rs1 ++ rs2) =
  match loop logging rs1 with
  | (t1, Still_reading) =>
      let (t2, s) := loop logging rs2 in (t1 ++ t2, s)
  | stopped => stopped
  end.
Proof. apply read_loop_app. Qed.

(** X9. Blank lines and bytes that are not UTF-8 leave no trace: nothing
    is printed or logged for them, and the loop goes on with what
    follows. *)
Theorem silent_readings_leave_no_trace
  (logging : bool) (rs rest : list reading) :
  forallb silent rs = true ->
  loop logging (rs ++ rest) = loop logging rest.
Proof.
  intros H; rewrite read_loop_app, (read_loop_silent _ _ _ _ H).
  now destruct (loop logging rest).
Qed.

(** X10. The log file holds the trimmed non-blank lines read so far, one per
    line and in the order read, whatever they contain and however they are
    rendered: always a beginning of that list, and all of it while the
    monitor is still reading.  Without [-o] nothing is written. *)
Theorem log_file_records_lines (a : arguments) (w : world) :
  (wants_log a = false -> log_file (fst (go a w)) = [])
  /\ (wants_log a = true ->
      exists rest,
        all_logged (reads w) = log_file (fst (go a w)) ++ rest
        /\ (snd (go a w) = Reading -> rest = [])).
Proof.
  split; intros Hw.
  - unfold main, start_log, connecting, connected, finally, say.
    rewrite Hw; cbn [andb].
    destruct (port_opening w) as [|msg|e]; try reflexivity.
    pose proof (read_loop_no_log json_loads repr (reads w)) as H.
    destruct (loop false (reads w)) as [t s]; cbn [fst] in H.
    destruct s; cbn [fst]; rewrite ?log_file_app, H; reflexivity.
  - unfold main, start_log, connecting, connected, finally, say.
    rewrite Hw; cbn [andb].
    destruct (log_opens w); cbn [negb].
    2:{ exists (all_logged (reads w)); split; [reflexivity|discriminate]. }
    destruct (port_opening w) as [|msg|e].
    2,3: exists (all_logged (reads w)); split; [reflexivity|discriminate].
    destruct (read_loop_log json_loads repr (reads w)) as (rest & E & H).
    destruct (loop true (reads w)) as [t s]; cbn [fst snd] in *.
    exists rest; destruct s; cbn [fst snd];
      rewrite ?log_file_app; cbn; rewrite ?app_nil_r;
      (split; [exact E|]); try discriminate.
    intros _; now apply H.
Qed.

(** X11. Logging changes nothing on the display but its own first line:
    with [-o path] the monitor prints [Logging to: path] and then exactly
    what it prints without [-o], and ends the same way. *)
Theorem logging_changes_no_output (a : arguments) (w : world) (path : str) :
  output a = Some path -> Str.truthy path = true -> log_opens w = true ->
  let quiet := {| port := port a; baudrate := baudrate a; output := None |} in
  console (fst (go a w))
  = Printed (u "Logging to: " ++ path) :: console (fst (go quiet w))
  /\ snd (go a w) = snd (go quiet w).
Proof.
  intros Ho Hp Hl; cbv zeta.
  unfold main, start_log, connecting, connected, finally, say, wants_log,
    log_path; cbn [output port baudrate].
  rewrite Ho, Hp, Hl; cbn [andb negb].
  destruct (port_opening w) as [|msg|e]; try (now split).
  destruct (read_loop_console json_loads repr (reads w)) as [Hc Hs].
  destruct (loop true (reads w)) as [t1 s1], (loop false (reads w)) as [t2 s2].
  cbn [fst snd] in *; subst s2.
  destruct s1; cbn [fst snd]; (split; [|reflexivity]);
    rewrite ?console_app; cbn [app]; unfold console at 1 3; cbn [flat_map app];
    fold (console t1); fold (console t2); now rewrite Hc.
Qed.

Lemma stdout_console_say (t : list effect) (line : str) (t' : list effect) :
  console t' = [] ->
  stdout (console (t ++ [say line] ++ t')) = stdout (console t) ++ [line].
Proof.
  intros H; rewrite !console_app, H, stdout_app; reflexivity.
Qed.

Lemma console_finally (logging ser : bool) : console (finally logging ser) = [].
Proof. now destruct logging, ser. Qed.

(** X12. Whatever ends the run, what was opened is closed, once: the log
    file if [-o] opened it, the port if it opened.  While the monitor is
    still reading nothing is closed. *)
Theorem everything_opened_is_closed (a : arguments) (w : world) :
  let t := fst (go a w) in
  (count is_log_opened t <= 1 /\ count is_port_opened t <= 1)%nat
  /\ (snd (go a w) = Reading ->
      count is_log_closed t = 0%nat /\ count is_port_closed t = 0%nat)
  /\ (snd (go a w) <> Reading ->
      count is_log_closed t = count is_log_opened t
      /\ count is_port_closed t = count is_port_opened t).
Proof.
  cbv zeta.
  unfold main, start_log, connecting, connected, finally, say.
  destruct (wants_log a); cbn [andb];
    [destruct (log_opens w); cbn [negb]|];
    try solve [cbn; repeat split; intros; try congruence; try lia;
               try (split; lia)].
  all: destruct (port_opening w) as [|msg|e];
    try solve [cbn; repeat split; intros; try congruence; try lia;
               try (split; lia)].
  all: match goal with
       | |- context [read_loop json_loads repr ?b ?rs] =>
           pose proof (read_loop_counts json_loads repr b rs
                         is_log_opened (fun _ => eq_refl) (fun _ => eq_refl));
           pose proof (read_loop_counts json_loads repr b rs
                         is_log_closed (fun _ => eq_refl) (fun _ => eq_refl));
           pose proof (read_loop_counts json_loads repr b rs
                         is_port_opened (fun _ => eq_refl) (fun _ => eq_refl));
           pose proof (read_loop_counts json_loads repr b rs
                         is_port_closed (fun _ => eq_refl) (fun _ => eq_refl));
           destruct (read_loop json_loads repr b rs) as [t s]
       end.
  all: cbn [fst snd] in *; destruct s; cbn [fst snd];
    rewrite ?count_app;
    repeat match goal with
           | |- context [count ?p (?x :: ?l)] =>
               change (count p (x :: l))
                 with (List.length (filter p (x :: l)));
               cbn [filter is_log_opened is_log_closed is_port_opened
                      is_port_closed List.length]
           | |- context [count ?p []] => change (count p []) with 0%nat
           end;
    repeat split; intros; try congruence; try lia; try (split; lia).
Qed.

(** X13. The last line printed tells how the run ended: [sys.exit] is only
    ever called with status 1 and after [Serial error: ...]; [main] only
    returns after [Exiting...]. *)
Theorem last_line_tells_the_end (a : arguments) (w : world) :
  (forall code, snd (go a w) = Exit code ->
     code = 1
     /\ exists before msg,
          stdout (console (fst (go a w)))
          = before ++ [u "Serial error: " ++ msg])
  /\ (snd (go a w) = Returned ->
      exists before,
        stdout (console (fst (go a w)))
        = before ++ [newline :: u "Exiting..."]).
Proof.
  unfold main.
  destruct (wants_log a && negb (log_opens w)); [split; [intros c|]; discriminate|].
  destruct (port_opening w) as [|msg|e].
  - destruct (read_loop json_loads repr (wants_log a) (reads w)) as [t s].
    destruct s as [|msg| |e]; cbn [fst snd]; split;
      try (intros c; discriminate); try discriminate.
    + intros c [= <-]; split; [reflexivity|].
      rewrite stdout_console_say by apply console_finally.
      now eexists _, _.
    + intros _.
      rewrite stdout_console_say by apply console_finally.
      now eexists.
  - cbn [fst snd]; split; [|discriminate].
    intros c [= <-]; split; [reflexivity|].
    rewrite app_assoc, stdout_console_say by apply console_finally.
    now eexists _, _.
  - split; [intros c|]; discriminate.
Qed.

Lemma all_logged_app (rs1 rs2 : list reading) :
  all_logged (rs1 ++ rs2) = all_logged rs1 ++ all_logged rs2.
Proof.
  induction rs1 as [|r rs1 IH]; [reflexivity|].
  destruct r; cbn [app all_logged]; rewrite IH; try reflexivity.
  now rewrite app_assoc.
Qed.

(** X14. A line on which the formatter raises ends the run with that
    exception, uncaught: the readings that follow are never looked at, and
    the line itself is already in the log file. *)
Theorem crashing_line_is_logged
  (a : arguments) (w : world) (rs rest : list reading)
  (decoded : str) (now : datetime) (e : exn) :
  (wants_log a = true -> log_opens w = true) ->
  port_opening w = Opens ->
  reads w = rs ++ Text decoded now :: rest ->
  snd (loop (wants_log a) rs) = Still_reading ->
  outcome (loop_body json_loads repr now decoded) = Raised e ->
  snd (go a w) = Uncaught e
  /\ go a w
     = go a {| log_opens := log_opens w; port_opening := Opens;
               reads := rs ++ [Text decoded now] |}
  /\ (wants_log a = true ->
      log_file (fst (go a w)) = all_logged (rs ++ [Text decoded now])).
Proof.
  intros Hlog Hport Hreads Hrs Hraise.
  assert (Hopen : wants_log a && negb (log_opens w) = false).
  { destruct (wants_log a); [now rewrite Hlog|reflexivity]. }
  rewrite loop_body_after_log in Hraise.
  destruct (Str.truthy (strip decoded)) eqn:Hline; [|discriminate Hraise].
  destruct (after_log json_loads repr now (strip decoded)) as [t r] eqn:Ha.
  cbn [outcome snd] in Hraise; subst r.
  assert (Hone : forall tail,
             loop (wants_log a) (rs ++ Text decoded now :: tail)
             = (fst (loop (wants_log a) rs)
                  ++ log_line (wants_log a) (strip decoded) ++ map Console t,
                Uncaught_stop e)).
  { intros tail; rewrite read_loop_app.
    destruct (loop (wants_log a) rs) as [t1 s1]; cbn [fst snd] in *; subst s1.
    cbn [read_loop]; now rewrite Hline, Ha. }
  unfold main; cbn [log_opens port_opening reads].
  rewrite Hopen, Hport, Hreads, !Hone; repeat split.
  intros Hw; rewrite Hw in *.
  destruct (read_loop_log json_loads repr rs) as (rest' & E & H).
  rewrite (H Hrs), app_nil_r in E.
  unfold start_log, connecting, connected, finally, say; rewrite Hw.
  cbn [fst]; rewrite !log_file_app, log_file_map, all_logged_app, E.
  cbn [all_logged]; rewrite Hline; cbn; now rewrite !app_nil_r.
Qed.

End MainExtras.

(** * Properties of the two-decimal format *)

Section FormatExtras.

(** X15. The hundredths printed for a finite [float] are the nearest to its
    value, the even ones when two are as near: exact when the float is an
    integer, and otherwise within half a hundredth. *)
Theorem hundredths_nearest (m : positive) (e : Z) :
  (0 <= e -> hundredths m e = 100 * (Zpos m * 2 ^ e))
  /\ (e < 0 ->
      let h := hundredths m e in
      2 * Z.abs (h * 2 ^ (- e) - 100 * Zpos m) <= 2 ^ (- e)
      /\ (2 * Z.abs (h * 2 ^ (- e) - 100 * Zpos m) = 2 ^ (- e) ->
          Z.even h = true)).
Proof.
  unfold hundredths; split; intros He.
  - destruct (Z.leb_spec 0 e); lia.
  - destruct (Z.leb_spec 0 e); [lia|]; cbv zeta.
    assert (Hden : 0 < 2 ^ (- e)) by (apply Z.pow_pos_nonneg; lia).
    set (den := 2 ^ (- e)) in *; set (n := Zpos m * 100).
    pose proof (Z.div_mod n den ltac:(lia)) as Hdm.
    pose proof (Z.mod_pos_bound n den Hden) as Hr.
    set (q := n / den) in *; set (r := n mod den) in *.
    replace (100 * Zpos m) with n by (unfold n; lia).
    destruct (Z.compare_spec (2 * r) den) as [Heq|Hlt|Hgt].
    + destruct (Z.even q) eqn:Hq.
      * split; [nia|]; intros _; exact Hq.
      * split; [nia|]; intros _.
        rewrite Z.even_add, Hq; reflexivity.
    + split; [nia|nia].
    + split; [nia|nia].
Qed.

Lemma digit_text (x : Z) :
  0 <= x < 10 -> str_of_int x = [N.of_nat (48 + Z.to_nat x)].
Proof.
  intros H.
  assert (x = 0 \/ x = 1 \/ x = 2 \/ x = 3 \/ x = 4 \/ x = 5 \/ x = 6
          \/ x = 7 \/ x = 8 \/ x = 9) as K by lia.
  repeat (destruct K as [->|K]; [reflexivity|]); subst; reflexivity.
Qed.

(** X16. Whatever number is formatted, the text is [nan], [inf], [-inf], or
    ends with a point and exactly two digits. *)
Theorem two_decimals (v : value) (t : str) :
  format_2f v = Ok t ->
  t = u "nan" \/ t = u "inf" \/ t = u "-inf"
  \/ exists whole d1 d2,
       t = whole ++ [of_ascii "."; d1; d2]
       /\ Json.is_digit d1 = true /\ Json.is_digit d2 = true.
Proof.
  assert (F : forall f,
             float_format_2f f = u "nan" \/ float_format_2f f = u "inf"
             \/ float_format_2f f = u "-inf"
             \/ exists whole d1 d2,
                  float_format_2f f = whole ++ [of_ascii "."; d1; d2]
                  /\ Json.is_digit d1 = true /\ Json.is_digit d2 = true).
  { intros [s|s| |s m e]; cbn [float_format_2f].
    - do 3 right; exists (sign_str s ++ u "0"), 48%N, 48%N.
      rewrite <- app_assoc; repeat split.
    - destruct s; tauto.
    - tauto.
    - do 3 right; unfold fixed2.
      set (h := hundredths m e).
      assert (H1 : 0 <= (h / 10) mod 10 < 10) by (apply Z.mod_pos_bound; lia).
      assert (H2 : 0 <= h mod 10 < 10) by (apply Z.mod_pos_bound; lia).
      rewrite (digit_text _ H1), (digit_text _ H2).
      eexists (sign_str s ++ str_of_int (h / 100)), _, _.
      rewrite <- !app_assoc; repeat split.
      + revert H1; generalize ((h / 10) mod 10); intros x Hx.
        assert (x = 0 \/ x = 1 \/ x = 2 \/ x = 3 \/ x = 4 \/ x = 5 \/ x = 6
                \/ x = 7 \/ x = 8 \/ x = 9) as K by lia.
        repeat (destruct K as [->|K]; [reflexivity|]); subst; reflexivity.
      + revert H2; generalize (h mod 10); intros x Hx.
        assert (x = 0 \/ x = 1 \/ x = 2 \/ x = 3 \/ x = 4 \/ x = 5 \/ x = 6
                \/ x = 7 \/ x = 8 \/ x = 9) as K by lia.
        repeat (destruct K as [->|K]; [reflexivity|]); subst; reflexivity. }
  destruct v as [|b|z|f|s|l|d]; cbn [format_2f]; try discriminate.
  - destruct (float_of_int (Z.b2z b)) as [f|e]; [|discriminate].
    cbn [bind_result]; intros [= <-]; apply F.
  - destruct (float_of_int z) as [f|e]; [|discriminate].
    cbn [bind_result]; intros [= <-]; apply F.
  - intros [= <-]; apply F.
Qed.

End FormatExtras.

(** * Integers within 53 bits are formatted exactly *)

Section IntegerExtras.

Lemma iter_xO_pow (m k : positive) :
  Zpos (Pos.iter xO m k) = Zpos m * 2 ^ Zpos k.
Proof.
  induction k as [|k IH] using Pos.peano_ind.
  - cbn [Pos.iter]; lia.
  - rewrite Pos.iter_succ, Pos2Z.inj_succ, Z.pow_succ_r by lia.
    rewrite Pos2Z.inj_xO, IH; lia.
Qed.

Lemma digits_iter_xO (m k : positive) :
  digits2_pos (Pos.iter xO m k) = (digits2_pos m + k)%positive.
Proof.
  induction k as [|k IH] using Pos.peano_ind.
  - cbn [Pos.iter digits2_pos]; lia.
  - rewrite Pos.iter_succ; cbn [digits2_pos]; rewrite IH; lia.
Qed.

Lemma digits2_lower (m : positive) :
  2 ^ (Zpos (digits2_pos m) - 1) <= Zpos m.
Proof.
  induction m as [p IH|p IH|]; cbn [digits2_pos].
  - rewrite Pos2Z.inj_succ.
    replace (Z.succ (Zpos (digits2_pos p)) - 1)
      with (Z.succ (Zpos (digits2_pos p) - 1)) by lia.
    rewrite Z.pow_succ_r by lia; lia.
  - rewrite Pos2Z.inj_succ.
    replace (Z.succ (Zpos (digits2_pos p)) - 1)
      with (Z.succ (Zpos (digits2_pos p) - 1)) by lia.
    rewrite Z.pow_succ_r by lia; lia.
  - reflexivity.
Qed.

Lemma digits2_at_most_53 (m : positive) :
  Zpos m < 2 ^ 53 -> Zpos (digits2_pos m) <= 53.
Proof.
  intros H; pose proof (digits2_lower m) as L.
  destruct (Z_le_gt_dec (Zpos (digits2_pos m)) 53) as [|G]; [assumption|].
  exfalso.
  assert (2 ^ 53 <= 2 ^ (Zpos (digits2_pos m) - 1))
    by (apply Z.pow_le_mono_r; lia).
  lia.
Qed.

(** A positive integer below [2^53] is a [float]: its mantissa shifted to
    53 bits. *)
Lemma binary_normalize_small (s : bool) (m : positive) :
  Zpos m < 2 ^ 53 ->
  exists mz ez,
    binary_round prec emax s m 0 = S754_finite s mz ez
    /\ ez <= 0 /\ Zpos mz = Zpos m * 2 ^ (- ez).
Proof.
  intros H; pose proof (digits2_at_most_53 m H) as D.
  unfold binary_round, shl_align, fexp, emin, prec, emax.
  set (d := Zpos (digits2_pos m)) in *.
  assert (Hd : 0 < d) by (unfold d; lia).
  replace (Z.max (d + 0 - 53) (3 - 1024 - 53)) with (d - 53) by lia.
  assert (R : forall mz ez,
             Zpos (digits2_pos mz) = 53 -> -52 <= ez <= 0 ->
             binary_round_aux 53 1024 s (Zpos mz) ez loc_Exact
             = S754_finite s mz ez).
  { intros mz ez Hm He.
    unfold binary_round_aux, shr_fexp, fexp, emin, Zdigits2.
    rewrite Hm.
    replace (Z.max (53 + ez - 53) (3 - 1024 - 53) - ez) with 0 by lia.
    cbn [shr shr_record_of_loc shr_m loc_of_shr_record round_nearest_even].
    rewrite Hm.
    replace (Z.max (53 + ez - 53) (3 - 1024 - 53) - ez) with 0 by lia.
    cbn [shr shr_record_of_loc shr_m].
    destruct (Z.leb_spec ez (1024 - 53)); [reflexivity|lia]. }
  destruct (d - 53 - 0) as [|k|k] eqn:K; try lia.
  - exists m, 0; rewrite R by (fold d; lia).
    repeat split; lia.
  - exists (Pos.iter xO m k), (d - 53); rewrite R.
    + repeat split; [lia|].
      rewrite iter_xO_pow; do 2 f_equal; lia.
    + rewrite digits_iter_xO, Pos2Z.inj_add; fold d; lia.
    + lia.
Qed.

Lemma hundredths_integer (m mz : positive) (ez : Z) :
  ez <= 0 -> Zpos mz = Zpos m * 2 ^ (- ez) ->
  hundredths mz ez = 100 * Zpos m.
Proof.
  intros He Hm; unfold hundredths.
  assert (Hden : 0 < 2 ^ (- ez)) by (apply Z.pow_pos_nonneg; lia).
  destruct (Z.leb_spec 0 ez).
  - replace ez with 0 in * by lia; cbn in Hm |- *; lia.
  - cbv zeta; rewrite Hm.
    replace (Zpos m * 2 ^ (- ez) * 100) with (100 * Zpos m * 2 ^ (- ez))
      by lia.
    rewrite Z.div_mul, Z.mod_mul by lia.
    destruct (Z.compare_spec (2 * 0) (2 ^ (- ez))); lia.
Qed.

Lemma fixed2_integer (n : Z) :
  fixed2 (100 * n) = str_of_int n ++ u ".00".
Proof.
  unfold fixed2.
  replace (100 * n) with (n * 100) by lia.
  rewrite Z.div_mul by lia.
  replace (n * 100 / 10) with (n * 10)
    by (replace (n * 100) with (n * 10 * 10) by lia;
        now rewrite Z.div_mul by lia).
  rewrite Z.mod_mul by lia.
  replace (n * 100) with (n * 10 * 10) by lia.
  rewrite Z.mod_mul by lia; reflexivity.
Qed.

(** X17. An integer of at most 53 bits is formatted exactly: as its decimal
    digits followed by [.00]. *)
Theorem integers_print_exactly (z : Z) :
  Z.abs z < 2 ^ 53 -> format_2f (VInt z) = Ok (str_of_int z ++ u ".00").
Proof.
  intros H; cbn [format_2f].
  rewrite float_of_int_ok
    by (pose proof float_limit_gt;
        assert (2 ^ 53 < float_limit) by reflexivity; lia).
  cbn [bind_result]; f_equal.
  destruct z as [|m|m]; cbn [binary_normalize].
  - reflexivity.
  - destruct (binary_normalize_small false m H) as (mz & ez & -> & He & Hm).
    cbn [float_format_2f sign_str app].
    now rewrite (hundredths_integer m), fixed2_integer.
  - destruct (binary_normalize_small true m H) as (mz & ez & -> & He & Hm).
    cbn [float_format_2f sign_str].
    rewrite (hundredths_integer m), fixed2_integer by assumption.
    reflexivity.
Qed.

End IntegerExtras.

(** * Why a run ends *)

Section EndingExtras.

Variable json_loads : str -> loads_result.
Variable repr : value -> str.

Local Abbreviation loop := (read_loop json_loads repr).
Local Abbreviation go := (main json_loads repr).

Lemma read_loop_cause (logging : bool) (rs : list reading) :
  match snd (loop logging rs) with
  | Still_reading => True
  | Serial_stop msg => In (Read_fails msg) rs
  | Interrupt_stop => In Interrupt rs
  | Uncaught_stop e =>
      exists decoded now,
        In (Text decoded now) rs
        /\ outcome (loop_body json_loads repr now decoded) = Raised e
  end.
Proof.
  induction rs as [|r rs IH]; [exact I|].
  assert (K : match snd (loop logging rs) with
              | Still_reading => True
              | Serial_stop msg => In (Read_fails msg) (r :: rs)
              | Interrupt_stop => In Interrupt (r :: rs)
              | Uncaught_stop e =>
                  exists decoded now,
                    In (Text decoded now) (r :: rs)
                    /\ outcome (loop_body json_loads repr now decoded)
                       = Raised e
              end).
  { destruct (snd (loop logging rs)); try exact I; try (now right).
    destruct IH as (decoded & now & Hin & Ho).
    exists decoded, now; split; [now right|assumption]. }
  destruct r as [decoded now| |msg|]; cbn [read_loop]; try exact K.
  - destruct (Str.truthy (strip decoded)) eqn:Hline; [|exact K].
    destruct (after_log json_loads repr now (strip decoded))
      as [t [[]|e]] eqn:Ha.
    + destruct (loop logging rs) as [t' s]; exact K.
    + cbn [snd]; exists decoded, now; split; [now left|].
      now rewrite loop_body_after_log, Hline, Ha.
  - now left.
  - now left.
Qed.

(** X18. Every ending has its cause among what the surroundings did: the
    monitor returns only on an interrupt, exits only on a serial error (when
    opening the port or when reading), and ends with an uncaught exception
    only if opening the port raised it or the processing of a line read
    did; otherwise it is still reading. *)
Theorem every_ending_has_its_cause (a : arguments) (w : world) :
  match snd (go a w) with
  | Reading => port_opening w = Opens
  | Returned => In Interrupt (reads w)
  | Exit _ =>
      (exists msg, port_opening w = Open_fails msg)
      \/ exists msg, In (Read_fails msg) (reads w)
  | Uncaught e =>
      port_opening w = Open_raises e
      \/ exists decoded now,
           In (Text decoded now) (reads w)
           /\ outcome (loop_body json_loads repr now decoded) = Raised e
  | Log_open_failed => wants_log a = true /\ log_opens w = false
  end.
Proof.
  unfold main.
  destruct (wants_log a) eqn:Hw; cbn [andb];
    [destruct (log_opens w) eqn:Hl; cbn [negb snd]|].
  2: now split.
  all: destruct (port_opening w) as [|msg|e] eqn:Hp; cbn [snd];
    try (left; now eexists); try (now left).
  all: match goal with
       | |- context [read_loop json_loads repr ?b ?rs] =>
           pose proof (read_loop_cause b rs) as C;
           destruct (read_loop json_loads repr b rs) as [t s]
       end; cbn [snd] in C; destruct s; cbn [snd]; try reflexivity;
    try assumption; right; first [assumption|eexists; eassumption].
Qed.

End EndingExtras.

Section HealthyRun.

Variable json_loads : str -> loads_result.
Variable repr : value -> str.

Local Abbreviation loop := (read_loop json_loads repr).
Local Abbreviation go := (main json_loads repr).

Lemma read_loop_healthy (logging : bool) (rs : list reading) :
  forallb (fun r => negb (stops r)) rs = true ->
  (forall decoded now,
      In (Text decoded now) rs ->
      outcome (loop_body json_loads repr now decoded) = Ok tt) ->
  snd (loop logging rs) = Still_reading
  /\ console (fst (loop logging rs))
     = flat_map (shown_for json_loads repr) rs.
Proof.
  induction rs as [|r rs IH]; [now split|]; cbn [forallb].
  intros Hs Hok; apply andb_true_iff in Hs as [Hr Hrs].
  destruct IH as [IHs IHc]; [assumption|intros; apply Hok; now right|].
  destruct r as [decoded now| |msg|]; try discriminate;
    cbn [read_loop flat_map shown_for app]; [|now split].
  specialize (Hok decoded now (or_introl eq_refl)).
  rewrite loop_body_after_log in *.
  destruct (Str.truthy (strip decoded)); [|now split].
  destruct (after_log json_loads repr now (strip decoded)) as [t [[]|e]];
    [|discriminate Hok].
  destruct (loop logging rs) as [t' s]; cbn [fst snd trace] in *.
  split; [assumption|].
  rewrite !console_app, console_map, IHc.
  now destruct logging.
Qed.

(** X19. A run in which the port opens, no reading fails or interrupts and no
    line raises is still reading at the end of the readings, and has shown
    the banner followed by what each line shows by itself, in the order
    read. *)
Theorem healthy_run_shows_each_line (a : arguments) (w : world) :
  (wants_log a = true -> log_opens w = true) ->
  port_opening w = Opens ->
  forallb (fun r => negb (stops r)) (reads w) = true ->
  (forall decoded now,
      In (Text decoded now) (reads w) ->
      outcome (loop_body json_loads repr now decoded) = Ok tt) ->
  snd (go a w) = Reading
  /\ console (fst (go a w))
     = console (start_log a ++ connecting a ++ connected)
       ++ flat_map (shown_for json_loads repr) (reads w).
Proof.
  intros Hlog Hport Hs Hok.
  destruct (read_loop_healthy (wants_log a) (reads w) Hs Hok) as [Hr Hc].
  unfold main; rewrite Hport.
  replace (wants_log a && negb (log_opens w)) with false
    by (destruct (wants_log a); [now rewrite Hlog|reflexivity]).
  destruct (loop (wants_log a) (reads w)) as [t s]; cbn [fst snd] in *.
  subst s; cbn [fst snd]; split; [reflexivity|].
  now rewrite !app_assoc, console_app, Hc.
Qed.

End HealthyRun.

(** * On a trimmed line nothing is lost *)

Section TrimmedLine.

Implicit Types (s a b p w : str).

Lemma lstrip_length s : (List.length (lstrip s) <= List.length s)%nat.
Proof.
  destruct (lstrip_split s) as (w & _ & E).
  rewrite E at 2; rewrite length_app; lia.
Qed.

Lemma rstrip_length s : (List.length (rstrip s) <= List.length s)%nat.
Proof.
  destruct (rstrip_split s) as (w & _ & E).
  rewrite E at 2; rewrite length_app; lia.
Qed.

Lemma trimmed_both s : trimmed s -> lstrip s = s /\ rstrip s = s.
Proof.
  unfold trimmed, strip; intros H.
  assert (L : lstrip s = s).
  { destruct (lstrip_split s) as (w & _ & E).
    pose proof (rstrip_length (lstrip s)) as R; rewrite H in R.
    assert (List.length w = 0%nat)
      by (apply (f_equal (@List.length _)) in E;
          rewrite length_app in E; lia).
    destruct w; [exact (eq_sym E)|discriminate]. }
  split; [exact L|now rewrite L in H].
Qed.

Lemma lstrip_front a b :
  lstrip (a ++ b) = a ++ b -> a <> [] -> lstrip a = a /\ ~ all_space a.
Proof.
  intros H Ha; destruct a as [|x a]; [contradiction|].
  destruct (isspace x) eqn:Hx.
  - exfalso; cbn in H; rewrite Hx in H.
    pose proof (lstrip_length (a ++ b)) as L; rewrite H in L; cbn in L; lia.
  - split; [now apply lstrip_nonspace|].
    unfold all_space; cbn; now rewrite Hx.
Qed.

Lemma rstrip_back a b :
  rstrip (a ++ b) = a ++ b -> b <> [] -> rstrip b = b /\ ~ all_space b.
Proof.
  intros H Hb; unfold rstrip in H.
  apply (f_equal (@rev _)) in H; rewrite rev_involutive, rev_app_distr in H.
  destruct (lstrip_front (rev b) (rev a) H) as [L N].
  { intros E; apply Hb; apply (f_equal (@rev _)) in E.
    now rewrite rev_involutive in E. }
  split.
  - unfold rstrip; rewrite L; apply rev_involutive.
  - intros A; apply N; now apply all_space_rev.
Qed.

(** The pieces of a line as the splitter cuts it, before any trimming. *)
Lemma split_cut (line c : str) :
  candidate (split line) = Some c ->
  exists p s,
    line = p ++ c ++ s
    /\ prefix (split line) = strip p
    /\ suffix (split line) = strip s.
Proof.
  intros Hc.
  destruct (in_dec N.eq_dec lbrace line) as [Hin|Hno].
  2:{ unfold split in Hc; rewrite find_notin in Hc by assumption.
      discriminate Hc. }
  destruct (find_from_in lbrace line 0 Hin) as (p & r & -> & Hp & Hf).
  fold (find (p ++ lbrace :: r) lbrace) in Hf; cbn [Z.add] in Hf.
  unfold split in *; rewrite Hf in *.
  pose proof (len_nonneg p) as Hlen.
  destruct (Z.eqb_spec (len p) (-1)); [lia|].
  assert (Hrest : (if len p >? 0
                   then slice_from (p ++ lbrace :: r) (len p)
                   else p ++ lbrace :: r) = lbrace :: r).
  { destruct (Z.gtb_spec (len p) 0); [apply slice_from_app|].
    destruct p as [|x p]; [reflexivity|].
    rewrite len_cons in *; pose proof (len_nonneg p); lia. }
  assert (Hprefix : (if len p >? 0
                     then strip (slice_to (p ++ lbrace :: r) (len p))
                     else []) = strip p).
  { destruct (Z.gtb_spec (len p) 0); [now rewrite slice_to_app|].
    destruct p as [|x p]; [reflexivity|].
    rewrite len_cons in *; pose proof (len_nonneg p); lia. }
  rewrite Hrest, Hprefix in *; clear Hrest Hprefix.
  set (rest := lbrace :: r) in *.
  set (je := rfind rest rbrace) in *.
  destruct ((je >? -1) && (je + 1 <? len rest)); cbn [candidate prefix suffix] in *;
    injection Hc as <-.
  - exists p, (slice_from rest (je + 1)); repeat split.
    now rewrite slice_to_from.
  - exists p, []; repeat split.
    now rewrite app_nil_r.
Qed.

(** X20. On a trimmed line (as the loop gives it to the splitter) nothing is
    lost: the line is the prefix, the candidate and the suffix with only
    whitespace between them, an empty prefix means that the line starts
    with the candidate and an empty suffix that it ends with it; so the
    tests [if prefix:] and [if suffix:] of lines 97 and 107 never skip a
    piece that holds text. *)
Theorem trimmed_line_loses_nothing (line c : str) :
  trimmed line ->
  candidate (split line) = Some c ->
  exists w1 w2,
    all_space w1 /\ all_space w2
    /\ line = prefix (split line) ++ w1 ++ c ++ w2 ++ suffix (split line)
    /\ (prefix (split line) = [] -> w1 = [])
    /\ (suffix (split line) = [] -> w2 = []).
Proof.
  intros Ht Hc.
  destruct (split_cut line c Hc) as (p & s & E & -> & ->).
  destruct (trimmed_both line Ht) as [HL HR].
  assert (P : exists w1, all_space w1 /\ p = strip p ++ w1
                         /\ (strip p = [] -> w1 = [])).
  { destruct p as [|x p]; [exists []; now repeat split|].
    rewrite E in HL.
    destruct (lstrip_front (x :: p) (c ++ s) HL) as [L N]; [discriminate|].
    unfold strip; rewrite L.
    destruct (rstrip_split (x :: p)) as (w1 & H1 & E1).
    exists w1; repeat split; try assumption.
    intros H0; exfalso; apply N.
    rewrite E1, H0; exact H1. }
  assert (S : exists w2, all_space w2 /\ s = w2 ++ strip s
                         /\ (strip s = [] -> w2 = [])).
  { destruct s as [|x s]; [exists []; now repeat split|].
    rewrite E, app_assoc in HR.
    destruct (rstrip_back (p ++ c) (x :: s) HR) as [R N]; [discriminate|].
    unfold strip; rewrite <- lstrip_rstrip, R.
    destruct (lstrip_split (x :: s)) as (w2 & H2 & E2).
    exists w2; repeat split; try assumption.
    intros H0; exfalso; apply N.
    rewrite E2, H0, app_nil_r; exact H2. }
  destruct P as (w1 & H1 & E1 & Z1), S as (w2 & H2 & E2 & Z2).
  exists w1, w2; repeat split; try assumption.
  rewrite E at 1; rewrite E1 at 1; rewrite E2 at 1.
  now rewrite <- !app_assoc.
Qed.

End TrimmedLine.

(** * Closed instances of the further properties *)

(** A whole run: the banner, two lines shown and logged, the serial error,
    and both files closed. *)
Example run_unplugged :
  main Json.loads plain_repr sample_args unplugged
  = ([ Log_opened (u "run.log");
       say (u "Logging to: run.log");
       say (u "Connecting to /dev/ttyACM0 at 115200 baud...");
       Port_opened;
       say (u "Connected!");
       say (u "Waiting for device data..." ++ [newline]);
       Logged (u "Booting UWB firmware v1.2" ++ [newline]);
       say (u "Booting UWB firmware v1.2");
       Logged (u "Zephyr: init " ++ status_text ++ [newline]);
       say (u "Zephyr: init");
       Console (Formatting (VDict (items_of status_text)));
       say (u "[12:00:07] STATUS: scanning");
       say (u "Serial error: device disconnected");
       Log_closed;
       Port_closed ], Exit 1).
Proof. vm_compute; reflexivity. Qed.

Lemma second_strip_is_idle_witness :
  let line := strip (u "  hi  ") in
  Str.truthy line = true
  /\ strip line = line
  /\ negb (Str.truthy (strip line)) = false.
Proof.
  destruct (second_strip_is_idle Json.loads plain_repr noon (u "  hi  "))
    as (A & B & _).
  split; [reflexivity|]; split; [exact A|].
  apply B; reflexivity.
Defined.

Lemma split_shape_witness :
  let line := u "a {x} b" in
  (exists r, u "{x}" = lbrace :: r)
  /\ ~ In lbrace (prefix (split line))
  /\ ~ In rbrace (suffix (split line))
  /\ trimmed (prefix (split line))
  /\ trimmed (suffix (split line))
  /\ (In rbrace (u "{x}") -> exists b, u "{x}" = b ++ [rbrace]).
Proof.
  apply (split_shape (u "a {x} b") (u "{x}")).
  vm_compute; reflexivity.
Defined.


Lemma formatter_gets_objects_witness :
  let line := u "Zephyr: init " ++ status_text in
  calls (trace (loop_body Json.loads plain_repr noon line)) = []
  \/ exists d,
       d <> []
       /\ calls (trace (loop_body Json.loads plain_repr noon line)) = [VDict d]
       /\ outcome (format_device_info plain_repr noon (VDict d))
          <> Raised AttributeError.
Proof.
  apply (formatter_gets_objects Json.loads plain_repr noon).
  exact reference_objects_only.
Defined.

Lemma raw_print_iff_witness :
  render_candidate Json.loads plain_repr noon (u "{}")
  = ([Printed (u "{}")], Ok tt).
Proof.
  apply (raw_print_iff Json.loads plain_repr noon (u "{}")).
  right; exists (VDict []); split; vm_compute; reflexivity.
Defined.

Lemma fallback_order_witness :
  let line := jtext "boot {'type': tail" in
  outcome (process_stripped Json.loads plain_repr noon line) = Ok tt
  /\ calls (trace (process_stripped Json.loads plain_repr noon line)) = []
  /\ stdout (trace (process_stripped Json.loads plain_repr noon line))
     = (if Str.truthy (prefix (split line)) then [prefix (split line)]
        else [])
       ++ (if Str.truthy (suffix (split line)) then [suffix (split line)]
           else [])
       ++ [jtext "{'type': tail"].
Proof.
  apply (fallback_order Json.loads plain_repr noon).
  - vm_compute; reflexivity.
  - vm_compute; reflexivity.
Defined.

Lemma clock_only_for_status_and_error_witness :
  format_device_info plain_repr noon (VDict (items_of device_text))
  = format_device_info plain_repr {| hour := 23; minute := 59; second := 59 |}
      (VDict (items_of device_text)).
Proof.
  apply clock_only_for_status_and_error.
  intros d [= <-]; split; vm_compute; reflexivity.
Defined.

Lemma silent_readings_leave_no_trace_witness :
  read_loop Json.loads plain_repr true
    ([Invalid_utf8; Text (u "   ") noon] ++ [Text (u "hello") noon])
  = read_loop Json.loads plain_repr true [Text (u "hello") noon].
Proof.
  apply silent_readings_leave_no_trace.
  vm_compute; reflexivity.
Defined.

Lemma log_file_records_lines_witness :
  wants_log sample_args = true
  /\ exists rest,
       all_logged (reads unplugged)
       = log_file (fst (main Json.loads plain_repr sample_args unplugged))
         ++ rest.
Proof.
  split; [reflexivity|].
  destruct (log_file_records_lines Json.loads plain_repr sample_args unplugged)
    as [_ H].
  destruct (H eq_refl) as (rest & E & _).
  exists rest; exact E.
Defined.

Lemma logging_changes_no_output_witness :
  let quiet := {| port := port sample_args; baudrate := baudrate sample_args;
                  output := None |} in
  console (fst (main Json.loads plain_repr sample_args unplugged))
  = Printed (u "Logging to: " ++ u "run.log")
    :: console (fst (main Json.loads plain_repr quiet unplugged))
  /\ snd (main Json.loads plain_repr sample_args unplugged)
     = snd (main Json.loads plain_repr quiet unplugged).
Proof.
  apply (logging_changes_no_output Json.loads plain_repr sample_args unplugged
           (u "run.log")); reflexivity.
Defined.

Lemma everything_opened_is_closed_witness :
  let t := fst (main Json.loads plain_repr sample_args crashing) in
  snd (main Json.loads plain_repr sample_args crashing) <> Reading
  /\ count is_log_closed t = count is_log_opened t
  /\ count is_port_closed t = count is_port_opened t.
Proof.
  assert (H : snd (main Json.loads plain_repr sample_args crashing) <> Reading)
    by (vm_compute; discriminate).
  split; [exact H|].
  exact (proj2 (proj2 (everything_opened_is_closed Json.loads plain_repr
                         sample_args crashing)) H).
Defined.

Lemma last_line_tells_the_end_witness :
  snd (main Json.loads plain_repr sample_args interrupted) = Returned
  /\ exists before,
       stdout (console (fst (main Json.loads plain_repr sample_args
                               interrupted)))
       = before ++ [newline :: u "Exiting..."].
Proof.
  split; [vm_compute; reflexivity|].
  apply (last_line_tells_the_end Json.loads plain_repr sample_args
           interrupted).
  vm_compute; reflexivity.
Defined.

Lemma crashing_line_is_logged_witness :
  snd (main Json.loads plain_repr sample_args crashing) = Uncaught ValueError
  /\ main Json.loads plain_repr sample_args crashing
     = main Json.loads plain_repr sample_args
         {| log_opens := true; port_opening := Opens;
            reads := [Text (u "boot") noon]
                     ++ [Text bad_distance_text noon] |}
  /\ (wants_log sample_args = true ->
      log_file (fst (main Json.loads plain_repr sample_args crashing))
      = all_logged ([Text (u "boot") noon] ++ [Text bad_distance_text noon])).
Proof.
  apply (crashing_line_is_logged Json.loads plain_repr sample_args crashing
           [Text (u "boot") noon] [Text status_text noon]
           bad_distance_text noon ValueError);
    try reflexivity; vm_compute; reflexivity.
Defined.

Lemma hundredths_nearest_witness :
  let h := hundredths 3 (-3) in
  2 * Z.abs (h * 2 ^ 3 - 100 * 3) <= 2 ^ 3
  /\ (2 * Z.abs (h * 2 ^ 3 - 100 * 3) = 2 ^ 3 -> Z.even h = true).
Proof.
  apply (proj2 (hundredths_nearest 3 (-3))); lia.
Defined.

Lemma two_decimals_witness :
  u "5.00" = u "nan" \/ u "5.00" = u "inf" \/ u "5.00" = u "-inf"
  \/ exists whole d1 d2,
       u "5.00" = whole ++ [of_ascii "."; d1; d2]
       /\ Json.is_digit d1 = true /\ Json.is_digit d2 = true.
Proof.
  apply (two_decimals (VInt 5)); vm_compute; reflexivity.
Defined.

Lemma integers_print_exactly_witness :
  format_2f (VInt (-150)) = Ok (str_of_int (-150) ++ u ".00").
Proof.
  apply integers_print_exactly; vm_compute; reflexivity.
Defined.

Lemma healthy_run_shows_each_line_witness :
  snd (main Json.loads plain_repr sample_args healthy) = Reading
  /\ console (fst (main Json.loads plain_repr sample_args healthy))
     = console (start_log sample_args ++ connecting sample_args ++ connected)
       ++ flat_map (shown_for Json.loads plain_repr) (reads healthy).
Proof.
  apply healthy_run_shows_each_line; try reflexivity.
  intros decoded now Hin.
  cbn [reads healthy In] in Hin.
  repeat (destruct Hin as [Hin|Hin];
          [try discriminate Hin; injection Hin as <- <-;
           vm_compute; reflexivity|]).
  contradiction.
Defined.

Lemma trimmed_line_loses_nothing_witness :
  let line := u "a  {x}  b" in
  exists w1 w2,
    all_space w1 /\ all_space w2
    /\ line = prefix (split line) ++ w1 ++ u "{x}" ++ w2 ++ suffix (split line)
    /\ (prefix (split line) = [] -> w1 = [])
    /\ (suffix (split line) = [] -> w2 = []).
Proof.
  apply trimmed_line_loses_nothing; vm_compute; reflexivity.
Defined.
